(** * check_links.py: the link checker of the README

    A shallow embedding of [src/check_links.py] and the properties of its
    three parts: the extractor ([extract_links]), the prober ([check_link])
    and the driver ([main]).

    Python values are modelled as follows.
    - A [str] is a list of Unicode code points ([N]); the file is opened in
      text mode with [encoding='utf-8'], so the program only ever sees code
      points.
    - An [int] is a [Z].
    - The open file is the sequence of the lines it yields; a file that
      cannot be opened or decoded is outside the model.
    - The two regular expressions are written as terms of a small regex
      syntax and run by a backtracking matcher with the leftmost,
      non-overlapping scan of [re.findall].
    - The network, the standard output and the clock are an explicit world:
      the log of events so far, threaded through every call.  A request
      answers with a response or raises; what it answers may depend on the
      requests made before it.
    - Exceptions are abstract, with [isinstance] on the classes the
      [except] clauses name and [str(e)] as a total function.
    - [sys.exit(n)] ends [main]: the value [main] returns is the exit
      code. *)

From Stdlib Require Import String Ascii.
From Stdlib Require Import List ZArith NArith QArith Bool Lia.
From Stdlib Require Import DecimalString Sorted.
Import ListNotations.
Close Scope Q_scope.

Set Implicit Arguments.

(* ------------------------------------------------------------------ *)
(** ** Python strings *)

Module PyStr.

Definition char := N.
Definition str := list char.

(** An ASCII character and an ASCII literal as code points. *)
Definition chr (a : ascii) : char := N_of_ascii a.
Definition lit (s : string) : str := map chr (list_ascii_of_string s).

Definition eqc (a b : char) : bool := N.eqb a b.

Fixpoint eqs (a b : str) : bool :=
  match a, b with
  | [], [] => true
  | x :: a', y :: b' => eqc x y && eqs a' b'
  | _, _ => false
  end.

(** [s.startswith(p)] *)
Fixpoint startswith (s p : str) {struct p} : bool :=
  match p, s with
  | [], _ => true
  | _ :: _, [] => false
  | y :: p', x :: s' => eqc x y && startswith s' p'
  end.

(** [str(n)] and [{n}] inside an f-string, for an [int]. *)
Definition str_of_int (n : Z) : str :=
  lit (NilZero.string_of_int (Z.to_int n)).

(** [len(s)] *)
Definition len (s : str) : Z := Z.of_nat (length s).

(** The characters [\s] matches in a [str] pattern: CPython's
    [Py_UNICODE_ISSPACE], the ASCII table below 128 and the Unicode
    white-space property above. *)
Definition isspace (c : char) : bool :=
  ((9 <=? c) && (c <=? 13)
   || (28 <=? c) && (c <=? 32)
   || (c =? 133) || (c =? 160) || (c =? 5760)
   || (8192 <=? c) && (c <=? 8202)
   || (c =? 8232) || (c =? 8233) || (c =? 8239) || (c =? 8287)
   || (c =? 12288))%N.

End PyStr.
Import PyStr.

(* ------------------------------------------------------------------ *)
(** ** The fragment of [re] the program uses *)

Module Re.

(** The syntax covers what occurs in the two patterns of
    [extract_links]: literal characters, a greedy [set+], a greedy
    [r?], sequencing, a capturing group and the one-character negative
    look-behind. *)
Inductive regex : Type :=
| Eps
| Chr (c : char)
| Rep1 (p : char -> bool)
| Opt (r : regex)
| Cat (r1 r2 : regex)
| Group (r : regex)
| NotAfter (c : char).

(** A literal run of characters. *)
Fixpoint literal (s : str) : regex :=
  match s with
  | [] => Eps
  | c :: s' => Cat (Chr c) (literal s')
  end.

(** What a successful match leaves: the unread input and the groups
    captured, in the order they closed. *)
Definition outcome : Type := str * list str.

(** A continuation gets the character just before the current position
    (for look-behind), the unread input and the groups so far. *)
Definition cont : Type := option char -> str -> list str -> option outcome.

(** Greedy repetition of a set, zero or more times: one more character
    is tried first, and the continuation here only if that fails. *)
Fixpoint rep (p : char -> bool) (prev : option char) (s : str)
         (caps : list str) (k : cont) : option outcome :=
  match s with
  | x :: s' =>
      if p x then
        match rep p (Some x) s' caps k with
        | Some o => Some o
        | None => k prev s caps
        end
      else k prev s caps
  | [] => k prev s caps
  end.

Fixpoint run (r : regex) (prev : option char) (s : str)
         (caps : list str) (k : cont) : option outcome :=
  match r with
  | Eps => k prev s caps
  | Chr c =>
      match s with
      | x :: s' => if eqc x c then k (Some x) s' caps else None
      | [] => None
      end
  | Rep1 p =>
      match s with
      | x :: s' => if p x then rep p (Some x) s' caps k else None
      | [] => None
      end
  | Opt r' =>
      match run r' prev s caps k with
      | Some o => Some o
      | None => k prev s caps
      end
  | Cat r1 r2 =>
      run r1 prev s caps (fun prev' s' caps' => run r2 prev' s' caps' k)
  | Group r' =>
      run r' prev s caps
          (fun prev' s' caps' =>
             k prev' s' (caps' ++ [firstn (length s - length s') s]))
  | NotAfter c =>
      match prev with
      | Some x => if eqc x c then None else k prev s caps
      | None => k prev s caps
      end
  end.

(** One attempt at the current position. *)
Definition match_at (r : regex) (prev : option char) (s : str)
  : option outcome :=
  run r prev s [] (fun _ s' caps => Some (s', caps)).

(** A match object: where it starts, the text matched and its groups. *)
Record rmatch : Type := MkMatch {
  m_start : nat;
  m_text : str;
  m_groups : list str
}.

(** Number of characters an attempt consumed. *)
Definition consumed (s rest : str) : nat := length s - length rest.

(** The scan of [re.finditer]: every position is tried from left to
    right, and the positions inside the previous match are skipped
    ([skip] counts those still to pass), so matches do not overlap.
    Both patterns of the program match at least one character. *)
Fixpoint scan (r : regex) (pos : nat) (prev : option char) (s : str)
         (skip : nat) : list rmatch :=
  match s with
  | [] =>
      match skip, match_at r prev [] with
      | O, Some (_, caps) => [MkMatch pos [] caps]
      | _, _ => []
      end
  | x :: s' =>
      match skip with
      | S n => scan r (S pos) (Some x) s' n
      | O =>
          match match_at r prev s with
          | Some (rest, caps) =>
              MkMatch pos (firstn (consumed s rest) s) caps
                :: scan r (S pos) (Some x) s' (consumed s rest - 1)
          | None => scan r (S pos) (Some x) s' 0
          end
      end
  end.

Definition finditer (r : regex) (s : str) : list rmatch :=
  scan r 0 None s 0.

(** [re.findall] for a pattern without groups: the matched texts. *)
Definition findall0 (r : regex) (s : str) : list str :=
  map m_text (finditer r s).

(** [re.findall] for a pattern with two groups: the pairs of groups. *)
Definition pair_of_groups (m : rmatch) : str * str :=
  (nth 0 (m_groups m) [], nth 1 (m_groups m) []).

Definition findall2 (r : regex) (s : str) : list (str * str) :=
  map pair_of_groups (finditer r s).

(** The character before the position reached after reading [t]. *)
Fixpoint prev_after (prev : option char) (t : str) : option char :=
  match t with
  | [] => prev
  | x :: t' => prev_after (Some x) t'
  end.

(** The input left cannot extend a run of [p]. *)
Definition stops (p : char -> bool) (rest : str) : Prop :=
  match rest with
  | [] => True
  | c :: _ => p c = false
  end.

(** The continuation fails wherever a character of [p] comes next. *)
Definition rejects (p : char -> bool) (k : cont) : Prop :=
  forall pv x s' cp, p x = true -> k pv (x :: s') cp = None.

(** Where a match ends. *)
Definition m_end (m : rmatch) : nat := m_start m + length (m_text m).

End Re.
Import Re.

(* ------------------------------------------------------------------ *)
(** ** The extractor *)

Definition not_rbracket (c : char) : bool := negb (eqc c (chr "]")).
Definition not_rparen (c : char) : bool := negb (eqc c (chr ")")).
Definition not_space_rparen (c : char) : bool :=
  negb (isspace c) && negb (eqc c (chr ")")).

(** [r'\[([^\]]+)\]\(([^\)]+)\)'] *)
Definition markdown_re : regex :=
  Cat (Chr (chr "["))
   (Cat (Group (Rep1 not_rbracket))
     (Cat (Chr (chr "]"))
       (Cat (Chr (chr "("))
         (Cat (Group (Rep1 not_rparen))
              (Chr (chr ")")))))).

(** [r'(?<!\()https?://[^\s\)]+'] *)
Definition bare_re : regex :=
  Cat (NotAfter (chr "("))
   (Cat (literal (lit "http"))
     (Cat (Opt (Chr (chr "s")))
       (Cat (literal (lit "://"))
            (Rep1 not_space_rparen)))).

(** [url.startswith(('http://', 'https://'))] *)
Definition is_http (url : str) : bool :=
  startswith url (lit "http://") || startswith url (lit "https://").

(** The markdown links of one line, in the order the first loop appends
    them. *)
Definition markdown_links (line : str) : list str :=
  map snd (filter (fun tu => is_http (snd tu)) (findall2 markdown_re line)).

(** The bare URLs of one line, in the order the second loop appends
    them. *)
Definition bare_urls (line : str) : list str :=
  findall0 bare_re line.

Definition line_links (line_num : Z) (line : str) : list (Z * str) :=
  map (pair line_num) (markdown_links line)
  ++ map (pair line_num) (bare_urls line).

(** The loop over [enumerate(f, start=1)]; [f], the open file, is the
    sequence of the lines it yields. *)
Fixpoint extract_from (line_num : Z) (f : list str) : list (Z * str) :=
  match f with
  | [] => []
  | line :: f' => line_links line_num line ++ extract_from (line_num + 1) f'
  end.

Definition extract_links (f : list str) : list (Z * str) :=
  extract_from 1 f.

(** *** Occurrences

    The same extraction with the place of every link kept: the rule that
    found it and the column its match starts at.  [extract_links] is this
    list with the places forgotten ([extract_links_occurrences]). *)

Inductive rule_kind : Type := Markdown | Bare.

Record occurrence : Type := MkOcc {
  o_line : Z;
  o_rule : rule_kind;
  o_col : nat;
  o_url : str
}.

Definition http_target (m : rmatch) : bool := is_http (snd (pair_of_groups m)).

Definition markdown_occurrences (line_num : Z) (line : str) : list occurrence :=
  map (fun m => MkOcc line_num Markdown (m_start m) (snd (pair_of_groups m)))
      (filter http_target (finditer markdown_re line)).

Definition bare_occurrences (line_num : Z) (line : str) : list occurrence :=
  map (fun m => MkOcc line_num Bare (m_start m) (m_text m))
      (finditer bare_re line).

Definition line_occurrences (line_num : Z) (line : str) : list occurrence :=
  markdown_occurrences line_num line ++ bare_occurrences line_num line.

Fixpoint occurrences_from (line_num : Z) (f : list str) : list occurrence :=
  match f with
  | [] => []
  | line :: f' =>
      line_occurrences line_num line ++ occurrences_from (line_num + 1) f'
  end.

Definition occurrences (f : list str) : list occurrence :=
  occurrences_from 1 f.

Definition entry (o : occurrence) : Z * str := (o_line o, o_url o).

Definition str_eq_dec (a b : str) : {a = b} + {a <> b} :=
  list_eq_dec N.eq_dec a b.

Definition entry_eq_dec (a b : Z * str) : {a = b} + {a <> b}.
Proof. decide equality; [apply str_eq_dec | apply Z.eq_dec]. Defined.

(** Reading order: an earlier line, or the same line and a column not
    further right. *)
Definition reads_before (a b : occurrence) : Prop :=
  (o_line a < o_line b)%Z \/ (o_line a = o_line b /\ o_col a <= o_col b).

(** The order of the two loops: an earlier line; or the same line and the
    markdown rule before the bare rule; or the same line and rule and a
    column further left. *)
Definition emitted_before (a b : occurrence) : Prop :=
  (o_line a < o_line b)%Z
  \/ (o_line a = o_line b
      /\ ((o_rule a = Markdown /\ o_rule b = Bare)
          \/ (o_rule a = o_rule b /\ o_col a < o_col b))).

(* ------------------------------------------------------------------ *)
(** ** The world: network, standard output, clock *)

Inductive method : Type := HEAD | GET.

(** [session.head(url, timeout=..., allow_redirects=...)] and
    [session.get(...)] as data. *)
Record request : Type := MkRequest {
  req_method : method;
  req_url : str;
  req_timeout : Z;
  req_allow_redirects : bool
}.

Record response : Type := MkResponse { status_code : Z }.

(** The session [create_session] builds: the retry strategy mounted on
    both schemes and the default headers. *)
Record session : Type := MkSession {
  retry_total : Z;
  retry_backoff_factor : Z;
  retry_status_forcelist : list Z;
  mounted : list str;
  headers : list (str * str)
}.

Definition create_session : session :=
  {| retry_total := 3;
     retry_backoff_factor := 1;
     retry_status_forcelist := [429; 500; 502; 503; 504]%Z;
     mounted := [lit "http://"; lit "https://"];
     headers :=
       [(lit "User-Agent",
         lit "Mozilla/5.0 (Windows NT 10.0; Win64; x64) AppleWebKit/537.36")]
  |}.

(** The exception classes the [except] clauses of [check_link] name. *)
Inductive exc_class : Type :=
| Timeout
| ConnectionError
| TooManyRedirects
| RequestException
| Exception.

(** What happened so far, oldest first. *)
Inductive event : Type :=
| Printed (s : str)
| Slept (seconds : Q)
| Requested (r : request).

Definition world : Type := list event.

(** The requests issued so far, oldest first. *)
Fixpoint history (w : world) : list request :=
  match w with
  | [] => []
  | Requested r :: w' => r :: history w'
  | _ :: w' => history w'
  end.

(** A computation either returns or raises. *)
Inductive result (E A : Type) : Type :=
| Ret (a : A)
| Raise (e : E).
Arguments Ret {E A} a.
Arguments Raise {E A} e.

Section Program.

(** The exceptions of the run, with Python's [isinstance] on the
    classes above and [str(e)]. *)
Variable exn : Type.
Variable isinstance : exn -> exc_class -> bool.
Variable str_of_exn : exn -> str.

(** The network as the client sees it: what a request gives, with the
    session's retries and redirects inside, after the requests made
    before it. *)
Variable send : session -> list request -> request -> result exn response.

Definition M (A : Type) : Type := world -> result exn A * world.

Definition ret {A} (a : A) : M A := fun w => (Ret a, w).
Definition raise {A} (e : exn) : M A := fun w => (Raise e, w).

Definition bind {A B} (m : M A) (k : A -> M B) : M B :=
  fun w =>
    match m w with
    | (Ret a, w') => k a w'
    | (Raise e, w') => (Raise e, w')
    end.

Definition try_except {A} (m : M A) (handler : exn -> M A) : M A :=
  fun w =>
    match m w with
    | (Ret a, w') => (Ret a, w')
    | (Raise e, w') => handler e w'
    end.

Notation "x <- m ;; k" := (bind m (fun x => k))
  (at level 61, m at next level, right associativity).
Notation "m ;;; k" := (bind m (fun _ => k))
  (at level 61, right associativity).

Definition print (s : str) : M unit := fun w => (Ret tt, w ++ [Printed s]).
Definition sleep (seconds : Q) : M unit :=
  fun w => (Ret tt, w ++ [Slept seconds]).

Definition session_request (s : session) (r : request) : M response :=
  fun w => (send s (history w) r, w ++ [Requested r]).

Definition session_head (s : session) (url : str) (timeout : Z)
           (allow_redirects : bool) : M response :=
  session_request s (MkRequest HEAD url timeout allow_redirects).

Definition session_get (s : session) (url : str) (timeout : Z)
           (allow_redirects : bool) : M response :=
  session_request s (MkRequest GET url timeout allow_redirects).

(* ---------------------------------------------------------------- *)
(** ** The prober *)

(** The two requests of the [try] block: the response the verdict is
    taken from. *)
Definition final_response (s : session) (url : str) (timeout : Z)
  : M response :=
  response <- session_head s url timeout true ;;
  if (status_code response >=? 400)%Z
  then session_get s url timeout true
  else ret response.

(** The [if]/[else] that ends the [try] block. *)
Definition verdict (r : response) : bool * str * Z :=
  if (status_code r <? 400)%Z
  then (true, lit "OK", status_code r)
  else (false, lit "HTTP " ++ str_of_int (status_code r), status_code r).

(** The [except] clauses, in the order they are written; an exception
    no clause catches goes on to the caller. *)
Definition handlers (e : exn) : M (bool * str * Z) :=
  if isinstance e Timeout then ret (false, lit "Timeout", 0%Z)
  else if isinstance e ConnectionError
       then ret (false, lit "Connection Error", 0%Z)
  else if isinstance e TooManyRedirects
       then ret (false, lit "Too Many Redirects", 0%Z)
  else if isinstance e RequestException
       then ret (false, lit "Request Error: " ++ str_of_exn e, 0%Z)
  else if isinstance e Exception
       then ret (false, lit "Unknown Error: " ++ str_of_exn e, 0%Z)
  else raise e.

Definition check_link (s : session) (url : str) (timeout : Z)
  : M (bool * str * Z) :=
  try_except
    (response <- final_response s url timeout ;; ret (verdict response))
    handlers.

Definition default_timeout : Z := 10.

(* ---------------------------------------------------------------- *)
(** ** The driver *)

(** The pictographs of the messages, as code points. *)
Definition magnifier : char := 128269%N.    (* U+1F50D *)
Definition cross_mark : char := 10060%N.    (* U+274C *)
Definition clipboard : char := 128203%N.    (* U+1F4CB *)
Definition check_mark : char := 9989%N.     (* U+2705 *)
Definition bar_chart : char := 128202%N.    (* U+1F4CA *)
Definition party : char := 127881%N.        (* U+1F389 *)
Definition newline : char := 10%N.

(** ["="*80] *)
Definition rule : str := repeat (chr "=") 80.

Definition progress_line (idx total line_num : Z) (url : str) : str :=
  lit "[" ++ str_of_int idx ++ lit "/" ++ str_of_int total
  ++ lit "] Checking line " ++ str_of_int line_num ++ lit ": "
  ++ firstn 80 url ++ (if (80 <? len url)%Z then lit "..." else []).

(** The body of the loop over [enumerate(links, start=1)], with the two
    lists it appends to. *)
Fixpoint check_each (s : session) (total idx : Z) (links : list (Z * str))
         (valid_links : list (Z * str * Z))
         (broken_links : list (Z * str * str))
  : M (list (Z * str * Z) * list (Z * str * str)) :=
  match links with
  | [] => ret (valid_links, broken_links)
  | (line_num, url) :: rest =>
      print (progress_line idx total line_num url) ;;;
      r <- check_link s url default_timeout ;;
      let '(is_valid, message, code) := r in
      lists <- (if is_valid
                then
                  print (lit "  " ++ [check_mark] ++ lit " " ++ message
                         ++ lit " (" ++ str_of_int code ++ lit ")") ;;;
                  ret (valid_links ++ [(line_num, url, code)], broken_links)
                else
                  print (lit "  " ++ [cross_mark] ++ lit " " ++ message) ;;;
                  ret (valid_links,
                       broken_links ++ [(line_num, url, message)])) ;;
      (if (idx <? total)%Z then sleep (1 # 2)%Q else ret tt) ;;;
      print [] ;;;
      check_each s total (idx + 1)%Z rest (fst lists) (snd lists)
  end.

Fixpoint print_broken (broken_links : list (Z * str * str)) : M unit :=
  match broken_links with
  | [] => ret tt
  | (line_num, url, message) :: rest =>
      print (lit "Line " ++ str_of_int line_num ++ lit ": " ++ url) ;;;
      print (lit "  Error: " ++ message ++ [newline]) ;;;
      print_broken rest
  end.

(** [main], on the lines of README.md.  Every path ends in [sys.exit]:
    the value returned is the exit code of the process. *)
Definition main (f : list str) : M Z :=
  print ([magnifier] ++ lit " Extracting links from README.md...") ;;;
  let links := extract_links f in
  match links with
  | [] =>
      print ([cross_mark] ++ lit " No links found in README.md") ;;;
      ret 1%Z
  | _ :: _ =>
      print ([clipboard] ++ lit " Found " ++ str_of_int (Z.of_nat (length links))
             ++ lit " links to check" ++ [newline]) ;;;
      let session := create_session in
      lists <- check_each session (Z.of_nat (length links)) 1%Z links [] [] ;;
      let '(valid_links, broken_links) := lists in
      print ([newline] ++ rule) ;;;
      print ([bar_chart] ++ lit " SUMMARY") ;;;
      print rule ;;;
      print ([check_mark] ++ lit " Valid links: "
             ++ str_of_int (Z.of_nat (length valid_links))) ;;;
      print ([cross_mark] ++ lit " Broken links: "
             ++ str_of_int (Z.of_nat (length broken_links))) ;;;
      print ([bar_chart] ++ lit " Total links checked: "
             ++ str_of_int (Z.of_nat (length links))) ;;;
      match broken_links with
      | _ :: _ =>
          print ([newline] ++ rule) ;;;
          print ([cross_mark] ++ lit " BROKEN LINKS") ;;;
          print rule ;;;
          print_broken broken_links ;;;
          ret 1%Z
      | [] =>
          print ([newline] ++ [party] ++ lit " All links are valid!") ;;;
          ret 0%Z
      end
  end.

(** The verdicts of the probes of [links], issued one after the other
    after the requests [w] records. *)
Fixpoint verdicts (s : session) (links : list (Z * str)) (w : world)
  : list (result exn (bool * str * Z)) :=
  match links with
  | [] => []
  | (_, url) :: rest =>
      let '(r, w') := check_link s url default_timeout w in
      r :: verdicts s rest w'
  end.

Definition classified_valid (v : result exn (bool * str * Z)) : bool :=
  match v with
  | Ret (true, _, _) => true
  | _ => false
  end.

Definition classified_broken (v : result exn (bool * str * Z)) : bool :=
  match v with
  | Ret (false, _, _) => true
  | _ => false
  end.

Definition returned (v : result exn (bool * str * Z)) : bool :=
  match v with
  | Ret _ => true
  | Raise _ => false
  end.

(** The client fails with ordinary exceptions only: whatever a request
    raises derives from [Exception]. *)
Definition ordinary_failures : Prop :=
  forall s h r e, send s h r = Raise e -> isinstance e Exception = true.

Definition head_request (url : str) (timeout : Z) : request :=
  MkRequest HEAD url timeout true.

Definition get_request (url : str) (timeout : Z) : request :=
  MkRequest GET url timeout true.

(** What an [except] clause returns or lets through; the clauses leave
    the world as it is ([handlers_caught]). *)
Definition caught (e : exn) : result exn (bool * str * Z) :=
  fst (handlers e []).

(** [check_link] read off the requests made before it alone: its result
    and the requests it adds ([check_link_probe_on]). *)
Definition probe_on (s : session) (url : str) (timeout : Z)
           (h : list request)
  : result exn (bool * str * Z) * list request :=
  let hd := head_request url timeout in
  let gt := get_request url timeout in
  match send s h hd with
  | Raise e => (caught e, [hd])
  | Ret r1 =>
      if (status_code r1 >=? 400)%Z
      then (match send s (h ++ [hd]) gt with
            | Ret r2 => Ret (verdict r2)
            | Raise e => caught e
            end, [hd; gt])
      else (Ret (verdict r1), [hd])
  end.

End Program.

Arguments classified_valid {exn} v.
Arguments classified_broken {exn} v.
Arguments returned {exn} v.

(* ------------------------------------------------------------------ *)
(** ** A scripted client

    A small network to run the program on: some exceptions of
    [requests] and of Python with the classes they derive from, and a
    server that answers by URL. *)

Module Scripted.

Inductive exn : Type :=
| ConnectTimeout        (* requests: ConnectionError and Timeout *)
| ReadTimeout           (* requests: Timeout *)
| ConnectionRefused     (* requests: ConnectionError *)
| RedirectLoop          (* requests: TooManyRedirects *)
| InvalidURL            (* requests: RequestException *)
| ValueError            (* Python: Exception *)
| KeyboardInterrupt.    (* Python: BaseException only *)

Definition isinstance (e : exn) (c : exc_class) : bool :=
  match e, c with
  | KeyboardInterrupt, _ => false
  | _, Exception => true
  | ValueError, _ => false
  | _, RequestException => true
  | ConnectTimeout, (Timeout | ConnectionError) => true
  | ReadTimeout, Timeout => true
  | ConnectionRefused, ConnectionError => true
  | RedirectLoop, TooManyRedirects => true
  | _, _ => false
  end.

Definition str_of_exn (e : exn) : str :=
  match e with
  | ConnectTimeout => lit "connect timed out"
  | ReadTimeout => lit "read timed out"
  | ConnectionRefused => lit "connection refused"
  | RedirectLoop => lit "Exceeded 30 redirects."
  | InvalidURL => lit "Invalid URL"
  | ValueError => lit "bad value"
  | KeyboardInterrupt => []
  end.

(** The server: one page that is there, one that is gone, one that
    refuses HEAD but serves GET, one host that times out; every other host
    refuses the connection. *)
Definition send (s : session) (h : list request) (r : request)
  : result exn response :=
  if eqs (req_url r) (lit "https://good.example/page")
  then Ret (MkResponse 200)
  else if eqs (req_url r) (lit "https://dead.example/page")
  then Ret (MkResponse 404)
  else if eqs (req_url r) (lit "https://head.example/")
  then match req_method r with
       | HEAD => Ret (MkResponse 405)
       | GET => Ret (MkResponse 200)
       end
  else if eqs (req_url r) (lit "https://slow.example/")
  then Raise ReadTimeout
  else Raise ConnectionRefused.

Definition check_link := check_link isinstance str_of_exn send.
Definition main := main isinstance str_of_exn send.

End Scripted.

(* ------------------------------------------------------------------ *)
(** ** Observations on a run *)

Definition not_lbracket (c : char) : bool := negb (eqc c (chr "[")).

(** What a list of matches gives the caller of [re.findall]: the groups
    of each match. *)
Definition groups_of (ms : list rmatch) : list (list str) := map m_groups ms.

(** [markdown_links] read off the groups of the matches. *)
Definition targets_of (gs : list (list str)) : list str :=
  map snd (filter (fun tu => is_http (snd tu))
                  (map (fun g => (nth 0 g [], nth 1 g [])) gs)).

(** The text of a markdown link. *)
Definition link_of (text target : str) : str :=
  lit "[" ++ text ++ lit "](" ++ target ++ lit ")".

(** An entry moved [k] lines down. *)
Definition shift (k : Z) (e : Z * str) : Z * str := ((fst e + k)%Z, snd e).

(** The line holds [p] somewhere. *)
Definition holds (line p : str) : Prop :=
  exists pre post, line = pre ++ p ++ post.

(** The pauses of a run, oldest first. *)
Fixpoint sleeps (w : world) : list Q :=
  match w with
  | [] => []
  | Slept q :: w' => q :: sleeps w'
  | _ :: w' => sleeps w'
  end.

(** The lines printed in a run, oldest first. *)
Fixpoint printed (w : world) : list str :=
  match w with
  | [] => []
  | Printed s :: w' => s :: printed w'
  | _ :: w' => printed w'
  end.

(** What a run did apart from printing, oldest first. *)
Fixpoint actions (w : world) : world :=
  match w with
  | [] => []
  | Printed _ :: w' => actions w'
  | e :: w' => e :: actions w'
  end.

(** A line printed before the summary: empty, or one that starts with a
    bracket (progress), a space (result) or the pictograph of one of the
    first two lines of [main]. *)
Definition before_summary (line : str) : bool :=
  match line with
  | [] => true
  | c :: _ =>
      eqc c (chr "[") || eqc c (chr " ") || eqc c magnifier
      || eqc c clipboard
  end.

Definition is_head (r : request) : bool :=
  match req_method r with
  | HEAD => true
  | GET => false
  end.

(** A document of two lines for the scripted client: a markdown link to
    the page that is there and a bare URL of the page that is gone. *)
Definition two_links : list str :=
  [lit "[ok](https://good.example/page)"; lit "Dead: https://dead.example/page"].

(** The six lines of the summary. *)
Definition summary_lines (nv nb nt : nat) : list str :=
  [ [newline] ++ rule;
    [bar_chart] ++ lit " SUMMARY";
    rule;
    [check_mark] ++ lit " Valid links: " ++ str_of_int (Z.of_nat nv);
    [cross_mark] ++ lit " Broken links: " ++ str_of_int (Z.of_nat nb);
    [bar_chart] ++ lit " Total links checked: " ++ str_of_int (Z.of_nat nt) ].

(** The two lines [print_broken] prints for each broken link. *)
Fixpoint broken_report (broken_links : list (Z * str * str)) : list str :=
  match broken_links with
  | [] => []
  | (line_num, url, message) :: rest =>
      (lit "Line " ++ str_of_int line_num ++ lit ": " ++ url)
        :: (lit "  Error: " ++ message ++ [newline])
        :: broken_report rest
  end.

(** What is printed after the summary. *)
Definition closing_lines (broken_links : list (Z * str * str)) : list str :=
  match broken_links with
  | [] => [[newline] ++ [party] ++ lit " All links are valid!"]
  | _ :: _ =>
      [[newline] ++ rule; [cross_mark] ++ lit " BROKEN LINKS"; rule]
      ++ broken_report broken_links
  end.

(** The exit code the last [if] of [main] chooses. *)
Definition exit_code (broken_links : list (Z * str * str)) : Z :=
  match broken_links with
  | [] => 0%Z
  | _ :: _ => 1%Z
  end.

Section Observations.

Variable exn : Type.
Variable isinstance : exn -> exc_class -> bool.
Variable str_of_exn : exn -> str.
Variable send : session -> list request -> request -> result exn response.

(** The requests the probes of [links] make, one probe after the other,
    after the requests [h]. *)
Fixpoint run_requests (s : session) (links : list (Z * str))
         (h : list request) : list request :=
  match links with
  | [] => []
  | (_, url) :: rest =>
      let new := snd (probe_on isinstance str_of_exn send s url
                               default_timeout h) in
      new ++ run_requests s rest (h ++ new)
  end.

(** The requests and pauses of the loop over [links], after the requests
    [h]: the requests of a probe, then, unless that link was the last, a
    pause of half a second and what the rest of the loop does. *)
Fixpoint paced (s : session) (links : list (Z * str)) (h : list request)
  : world :=
  match links with
  | [] => []
  | (_, url) :: rest =>
      let new := snd (probe_on isinstance str_of_exn send s url
                               default_timeout h) in
      map Requested new
      ++ match rest with
         | [] => []
         | _ :: _ => Slept (1 # 2)%Q :: paced s rest (h ++ new)
         end
  end.

(** The links whose verdict is valid, with the status code, and those
    whose verdict is broken, with the reason. *)
Fixpoint valid_entries (links : list (Z * str))
         (vs : list (result exn (bool * str * Z))) : list (Z * str * Z) :=
  match links, vs with
  | (n, url) :: links', Ret (true, _, code) :: vs' =>
      (n, url, code) :: valid_entries links' vs'
  | _ :: links', _ :: vs' => valid_entries links' vs'
  | _, _ => []
  end.

Fixpoint broken_entries (links : list (Z * str))
         (vs : list (result exn (bool * str * Z))) : list (Z * str * str) :=
  match links, vs with
  | (n, url) :: links', Ret (false, message, _) :: vs' =>
      (n, url, message) :: broken_entries links' vs'
  | _ :: links', _ :: vs' => broken_entries links' vs'
  | _, _ => []
  end.

End Observations.

(* ------------------------------------------------------------------ *)
(** ** Facts about the matcher and the scan *)

Module PyStrFacts.

Lemma eqc_eq (a b : char) : eqc a b = true <-> a = b.
Proof. apply N.eqb_eq. Qed.

Lemma eqc_refl (a : char) : eqc a a = true.
Proof. apply N.eqb_refl. Qed.

Lemma eqs_eq (a b : str) : eqs a b = true <-> a = b.
Proof.
  revert b; induction a as [|x a IH]; intros [|y b]; simpl;
    try (split; [discriminate | congruence]); try tauto.
  rewrite andb_true_iff, eqc_eq, IH. split.
  - intros [-> ->]; reflexivity.
  - intros E; injection E as -> ->; auto.
Qed.

End PyStrFacts.
Import PyStrFacts.

Module ReFacts.

Lemma prev_after_app prev t x :
  prev_after prev (t ++ [x]) = Some x.
Proof. revert prev; induction t as [|y t IH]; intros prev; simpl; auto. Qed.

(** Giving characters back never helps when what follows the run must
    start outside the set: the run is read to its end. *)
Lemma rep_commit p k t rest prev caps :
  forallb p t = true -> stops p rest -> rejects p k ->
  rep p prev (t ++ rest) caps k = k (prev_after prev t) rest caps.
Proof.
  intros Ht Hs Hk. revert prev.
  induction t as [|x t IH]; intros prev; simpl in *.
  - destruct rest as [|c rest]; simpl in *; [reflexivity|].
    now rewrite Hs.
  - apply andb_true_iff in Ht as [Hx Ht].
    rewrite Hx, (IH Ht).
    destruct (k (prev_after (Some x) t) rest caps) eqn:E; [reflexivity|].
    now apply Hk.
Qed.

(** The longest run is tried first. *)
Lemma rep_greedy p k t rest prev caps o :
  forallb p t = true -> stops p rest ->
  k (prev_after prev t) rest caps = Some o ->
  rep p prev (t ++ rest) caps k = Some o.
Proof.
  intros Ht Hs. revert prev.
  induction t as [|x t IH]; intros prev Hk; simpl in *.
  - destruct rest as [|c rest]; simpl in *; [assumption|].
    now rewrite Hs.
  - apply andb_true_iff in Ht as [Hx Ht].
    now rewrite Hx, (IH Ht _ Hk).
Qed.

Lemma firstn_consumed (t rest : str) :
  firstn (length (t ++ rest) - length rest) (t ++ rest) = t.
Proof.
  rewrite length_app, Nat.add_sub.
  rewrite firstn_app, Nat.sub_diag, firstn_all. simpl.
  apply app_nil_r.
Qed.

Lemma consumed_le (s rest : str) : consumed s rest <= length s.
Proof. unfold consumed; lia. Qed.

Lemma length_firstn_consumed (s rest : str) :
  length (firstn (consumed s rest) s) = consumed s rest.
Proof. apply firstn_length_le, consumed_le. Qed.

Section Scan.
Variable r : regex.

Lemma scan_start_ge s : forall pos prev skip m,
  In m (scan r pos prev s skip) -> pos <= m_start m.
Proof.
  induction s as [|x s IH]; intros pos prev skip m H; simpl in H.
  - destruct skip; [|contradiction].
    destruct (match_at r prev []) as [[? caps]|]; [|contradiction].
    destruct H as [<-|[]]; simpl; lia.
  - destruct skip as [|n].
    + destruct (match_at r prev (x :: s)) as [[rest caps]|].
      * destruct H as [<-|H]; [simpl; lia|].
        apply IH in H; lia.
      * apply IH in H; lia.
    + apply IH in H; lia.
Qed.

(** Matches come out from left to right. *)
Lemma scan_sorted s : forall pos prev skip,
  StronglySorted lt (map m_start (scan r pos prev s skip)).
Proof.
  induction s as [|x s IH]; intros pos prev skip; simpl.
  - destruct skip; [|constructor].
    destruct (match_at r prev []) as [[? caps]|]; repeat constructor.
  - destruct skip as [|n]; [|apply IH].
    destruct (match_at r prev (x :: s)) as [[rest caps]|]; [|apply IH].
    simpl. constructor; [apply IH|].
    apply Forall_forall. intros i Hi.
    apply in_map_iff in Hi as [m [<- Hm]].
    apply scan_start_ge in Hm. lia.
Qed.

(** Every match reported comes from a successful attempt at its
    position. *)
Lemma scan_attempt s : forall pos prev skip m,
  In m (scan r pos prev s skip) ->
  exists a b, s = a ++ b /\ m_start m = pos + length a
              /\ match_at r (prev_after prev a) b <> None.
Proof.
  induction s as [|x s IH]; intros pos prev skip m H; simpl in H.
  - destruct skip; [|contradiction].
    destruct (match_at r prev []) as [[? caps]|] eqn:E; [|contradiction].
    destruct H as [<-|[]]. exists [], []; simpl.
    repeat split; [lia | congruence].
  - assert (Tail : forall n, In m (scan r (S pos) (Some x) s n) ->
              exists a b, x :: s = a ++ b /\ m_start m = pos + length a
                /\ match_at r (prev_after prev a) b <> None).
    { intros n Hn. destruct (IH _ _ _ _ Hn) as (a & b & -> & Hp & Hm).
      exists (x :: a), b. simpl. repeat split; [lia | assumption]. }
    destruct skip as [|n]; [|now apply Tail in H].
    destruct (match_at r prev (x :: s)) as [[rest caps]|] eqn:E;
      [|now apply Tail in H].
    destruct H as [<-|H]; [|now apply Tail in H].
    exists [], (x :: s); simpl. repeat split; [lia | congruence].
Qed.

(** When no match reported before the end of [pre] runs past it, the
    scan arrives at the end of [pre] ready to try a match there. *)
Lemma scan_reach pre rest : forall pos prev skip,
  skip <= length pre ->
  (forall m, In m (scan r pos prev (pre ++ rest) skip) ->
             m_start m < pos + length pre ->
             m_end m <= pos + length pre) ->
  exists ms,
    scan r pos prev (pre ++ rest) skip
    = ms ++ scan r (pos + length pre) (prev_after prev pre) rest 0.
Proof.
  induction pre as [|x pre IH]; intros pos prev skip Hskip Hm.
  - simpl in *. assert (skip = 0) as -> by lia.
    exists []. now rewrite Nat.add_0_r.
  - simpl in *.
    replace (pos + S (length pre)) with (S pos + length pre) in * by lia.
    destruct skip as [|n].
    + destruct (match_at r prev (x :: pre ++ rest)) as [[rest' caps]|] eqn:E.
      * pose proof (Hm _ (or_introl eq_refl)) as H0.
        unfold m_end in H0; simpl in H0.
        change (x :: pre ++ rest) with ((x :: pre) ++ rest) in H0.
        rewrite length_firstn_consumed in H0.
        destruct (IH (S pos) (Some x) (consumed ((x :: pre) ++ rest) rest' - 1))
          as [ms Hms].
        -- lia.
        -- intros m Hin. apply Hm. now right.
        -- exists (MkMatch pos
                     (firstn (consumed ((x :: pre) ++ rest) rest')
                             ((x :: pre) ++ rest)) caps :: ms).
           simpl. f_equal. exact Hms.
      * apply IH; [lia | assumption].
    + apply IH; [lia | assumption].
Qed.

End Scan.

(** A match found at the very start of what is left to scan is
    reported. *)
Lemma scan_here r pos prev x s rest caps :
  match_at r prev (x :: s) = Some (rest, caps) ->
  In (MkMatch pos (firstn (consumed (x :: s) rest) (x :: s)) caps)
     (scan r pos prev (x :: s) 0).
Proof. intros E. simpl. rewrite E. now left. Qed.

End ReFacts.
Import ReFacts.

(* ------------------------------------------------------------------ *)
(** ** Facts about the two patterns *)

Module PatternFacts.

Lemma run_cat r1 r2 prev s caps k :
  run (Cat r1 r2) prev s caps k
  = run r1 prev s caps (fun prev' s' caps' => run r2 prev' s' caps' k).
Proof. reflexivity. Qed.

Lemma run_chr c prev s caps k :
  run (Chr c) prev (c :: s) caps k = k (Some c) s caps.
Proof. simpl. now rewrite eqc_refl. Qed.

Lemma run_chr_miss c prev x s caps k :
  eqc x c = false -> run (Chr c) prev (x :: s) caps k = None.
Proof. simpl. now intros ->. Qed.

Lemma run_opt_chr_miss c prev x s caps k :
  eqc x c = false ->
  run (Opt (Chr c)) prev (x :: s) caps k = k prev (x :: s) caps.
Proof. simpl. now intros ->. Qed.

Lemma run_opt_chr_hit c prev s caps k o :
  k (Some c) s caps = Some o ->
  run (Opt (Chr c)) prev (c :: s) caps k = Some o.
Proof. simpl. rewrite eqc_refl. now intros ->. Qed.

Lemma run_literal l : forall prev s caps k,
  run (literal l) prev (l ++ s) caps k = k (prev_after prev l) s caps.
Proof.
  induction l as [|c l IH]; intros prev s caps k; [reflexivity|].
  cbn [literal app prev_after]. now rewrite run_cat, run_chr, IH.
Qed.

Lemma run_not_after c prev s caps k :
  prev <> Some c -> run (NotAfter c) prev s caps k = k prev s caps.
Proof.
  intros H. simpl. destruct prev as [x|]; [|reflexivity].
  destruct (eqc x c) eqn:E; [|reflexivity].
  apply eqc_eq in E. congruence.
Qed.

Lemma rejects_chr p c k :
  p c = false -> rejects p (fun pv s cp => run (Chr c) pv s cp k).
Proof.
  intros Hc pv x s' cp Hx. apply run_chr_miss.
  destruct (eqc x c) eqn:E; [|reflexivity].
  apply eqc_eq in E. congruence.
Qed.

Lemma rejects_cat p r1 r2 k :
  rejects p (fun pv s cp =>
               run r1 pv s cp (fun pv' s' cp' => run r2 pv' s' cp' k)) ->
  rejects p (fun pv s cp => run (Cat r1 r2) pv s cp k).
Proof. intros H pv x s' cp Hx. rewrite run_cat. now apply H. Qed.

(** A group around [set+]: the whole run is captured. *)
Lemma run_group_rep1 p k t rest prev caps :
  t <> [] -> forallb p t = true -> stops p rest -> rejects p k ->
  run (Group (Rep1 p)) prev (t ++ rest) caps k
  = k (prev_after prev t) rest (caps ++ [t]).
Proof.
  intros Hne Ht Hs Hk. destruct t as [|x t]; [congruence|].
  pose proof (firstn_consumed (x :: t) rest) as F.
  simpl in Ht. apply andb_true_iff in Ht as [Hx Ht].
  cbn [run app]. rewrite Hx.
  rewrite rep_commit; auto.
  - cbn [prev_after]. do 2 f_equal. f_equal. exact F.
  - intros pv y s' cp Hy. now apply Hk.
Qed.

(** [set+] needs one character of the set. *)
Lemma run_group_rep1_none p k prev s caps :
  stops p s -> run (Group (Rep1 p)) prev s caps k = None.
Proof. destruct s as [|x s]; simpl; [reflexivity|]. now intros ->. Qed.

(** [set+] at the end of a pattern reads the whole run. *)
Lemma run_rep1_last p t rest prev caps :
  t <> [] -> forallb p t = true -> stops p rest ->
  run (Rep1 p) prev (t ++ rest) caps (fun _ s' cp => Some (s', cp))
  = Some (rest, caps).
Proof.
  intros Hne Ht Hs. destruct t as [|x t]; [congruence|].
  simpl in Ht. apply andb_true_iff in Ht as [Hx Ht].
  cbn [run app]. rewrite Hx. now apply rep_greedy.
Qed.

(** The markdown pattern at a link: both groups are captured and the
    match ends after the closing parenthesis. *)
Lemma markdown_match prev text target post :
  text <> [] -> forallb not_rbracket text = true ->
  target <> [] -> forallb not_rparen target = true ->
  match_at markdown_re prev
    (lit "[" ++ text ++ lit "](" ++ target ++ lit ")" ++ post)
  = Some (post, [text; target]).
Proof.
  intros Ht Hbt Hu Hbu.
  unfold match_at, markdown_re.
  change (lit "[" ++ text ++ lit "](" ++ target ++ lit ")" ++ post)
    with (chr "[" :: text ++ chr "]" :: chr "(" :: target ++ chr ")" :: post).
  rewrite run_cat, run_chr, run_cat.
  rewrite run_group_rep1;
    [| assumption | assumption | reflexivity
     | apply rejects_cat, rejects_chr; reflexivity].
  rewrite run_cat, run_chr, run_cat, run_chr, run_cat.
  rewrite run_group_rep1;
    [| assumption | assumption | reflexivity
     | apply rejects_chr; reflexivity].
  rewrite run_chr. reflexivity.
Qed.

(** No display text: the pattern fails at the bracket. *)
Lemma markdown_no_text prev rest :
  match_at markdown_re prev (lit "[]" ++ rest) = None.
Proof.
  unfold match_at, markdown_re.
  change (lit "[]" ++ rest) with (chr "[" :: chr "]" :: rest).
  rewrite run_cat, run_chr, run_cat.
  now apply run_group_rep1_none.
Qed.

(** No target: the pattern fails at the bracket. *)
Lemma markdown_no_target prev text rest :
  forallb not_rbracket text = true ->
  match_at markdown_re prev (lit "[" ++ text ++ lit "]()" ++ rest) = None.
Proof.
  intros Hbt. unfold match_at, markdown_re.
  change (lit "[" ++ text ++ lit "]()" ++ rest)
    with (chr "[" :: text ++ chr "]" :: chr "(" :: chr ")" :: rest).
  rewrite run_cat, run_chr, run_cat.
  destruct text as [|t0 text].
  - now apply run_group_rep1_none.
  - rewrite run_group_rep1;
      [| discriminate | assumption | reflexivity
       | apply rejects_cat, rejects_chr; reflexivity].
    rewrite run_cat, run_chr, run_cat, run_chr, run_cat.
    now apply run_group_rep1_none.
Qed.

(** The bare pattern at a URL that does not follow an opening
    parenthesis. *)
Lemma bare_match prev scheme body post :
  prev <> Some (chr "(") ->
  scheme = lit "http://" \/ scheme = lit "https://" ->
  body <> [] -> forallb not_space_rparen body = true ->
  stops not_space_rparen post ->
  match_at bare_re prev (scheme ++ body ++ post) = Some (post, []).
Proof.
  intros Hprev Hscheme Hne Hb Hs.
  unfold match_at, bare_re.
  rewrite run_cat, run_not_after by assumption.
  destruct Hscheme as [-> | ->].
  - change (lit "http://" ++ body ++ post)
      with (lit "http" ++ chr ":" :: lit "//" ++ body ++ post).
    rewrite run_cat, run_literal, run_cat.
    rewrite run_opt_chr_miss by reflexivity.
    change (chr ":" :: lit "//" ++ body ++ post)
      with (lit "://" ++ body ++ post).
    rewrite run_cat, run_literal. now apply run_rep1_last.
  - change (lit "https://" ++ body ++ post)
      with (lit "http" ++ chr "s" :: lit "://" ++ body ++ post).
    rewrite run_cat, run_literal, run_cat.
    apply run_opt_chr_hit.
    rewrite run_cat, run_literal. now apply run_rep1_last.
Qed.

End PatternFacts.
Import PatternFacts.
Import PatternFacts.

(* ------------------------------------------------------------------ *)
(** ** Facts about the extractor *)

Module ExtractFacts.

Lemma filter_of_map {A B} (f : B -> bool) (g : A -> B) (l : list A) :
  filter f (map g l) = map g (filter (fun x => f (g x)) l).
Proof.
  induction l as [|a l IH]; simpl; [reflexivity|].
  destruct (f (g a)); simpl; now rewrite IH.
Qed.

Lemma sorted_app {A} (R : A -> A -> Prop) (l1 l2 : list A) :
  StronglySorted R l1 -> StronglySorted R l2 ->
  (forall a b, In a l1 -> In b l2 -> R a b) ->
  StronglySorted R (l1 ++ l2).
Proof.
  intros H1 H2 H. induction H1 as [|a l1 S1 IH F1]; simpl; [assumption|].
  constructor.
  - apply IH. intros x y Hx Hy. apply H; [now right | assumption].
  - apply Forall_forall. intros x Hx. apply in_app_iff in Hx as [Hx|Hx].
    + rewrite Forall_forall in F1. now apply F1.
    + apply H; [now left | assumption].
Qed.

Lemma sorted_impl {A} (R S : A -> A -> Prop) (l : list A) :
  (forall a b, R a b -> S a b) -> StronglySorted R l -> StronglySorted S l.
Proof.
  intros H. induction 1 as [|a l Hl IH F]; constructor; [assumption|].
  rewrite Forall_forall in *. intros x Hx. apply H. now apply F.
Qed.

Lemma sorted_filter {A} (R : A -> A -> Prop) (f : A -> bool) (l : list A) :
  StronglySorted R l -> StronglySorted R (filter f l).
Proof.
  induction 1 as [|a l S IH F]; simpl; [constructor|].
  destruct (f a); [|assumption].
  constructor; [assumption|].
  rewrite Forall_forall in *. intros x Hx.
  apply filter_In in Hx as [Hx _]. now apply F.
Qed.

Lemma sorted_map {A B} (R : B -> B -> Prop) (g : A -> B) (l : list A) :
  StronglySorted (fun a b => R (g a) (g b)) l -> StronglySorted R (map g l).
Proof.
  induction 1 as [|a l S IH F]; simpl; constructor; [assumption|].
  rewrite Forall_forall in *. intros y Hy.
  apply in_map_iff in Hy as [x [<- Hx]]. now apply F.
Qed.

Lemma sorted_unmap {A B} (R : B -> B -> Prop) (g : A -> B) (l : list A) :
  StronglySorted R (map g l) -> StronglySorted (fun a b => R (g a) (g b)) l.
Proof.
  induction l as [|a l IH]; simpl; intros H; [constructor|].
  inversion H as [|? ? S F]; subst. constructor; [now apply IH|].
  rewrite Forall_forall in *. intros x Hx. apply F. now apply in_map.
Qed.

(** The matches of a pattern on a line, by increasing start. *)
Lemma finditer_sorted r line :
  StronglySorted (fun a b => m_start a < m_start b) (finditer r line).
Proof. apply sorted_unmap, scan_sorted. Qed.

Lemma line_links_occurrences n line :
  line_links n line = map entry (line_occurrences n line).
Proof.
  unfold line_links, line_occurrences, markdown_links, bare_urls,
    markdown_occurrences, bare_occurrences, findall0, findall2.
  rewrite filter_of_map, map_app, !map_map. reflexivity.
Qed.

Lemma extract_from_occurrences f : forall n,
  extract_from n f = map entry (occurrences_from n f).
Proof.
  induction f as [|line f IH]; intros n; simpl; [reflexivity|].
  now rewrite map_app, IH, line_links_occurrences.
Qed.

Lemma extract_links_occurrences f :
  extract_links f = map entry (occurrences f).
Proof. apply extract_from_occurrences. Qed.

Lemma line_occurrences_line n line o :
  In o (line_occurrences n line) -> o_line o = n.
Proof.
  unfold line_occurrences, markdown_occurrences, bare_occurrences.
  intros H. apply in_app_iff in H as [H|H];
    apply in_map_iff in H as [m [<- _]]; reflexivity.
Qed.

Lemma occurrences_from_line f : forall n o,
  In o (occurrences_from n f) -> (n <= o_line o)%Z.
Proof.
  induction f as [|line f IH]; intros n o H; simpl in H; [contradiction|].
  apply in_app_iff in H as [H|H].
  - apply line_occurrences_line in H. lia.
  - apply IH in H. lia.
Qed.

Lemma line_occurrences_sorted n line :
  StronglySorted emitted_before (line_occurrences n line).
Proof.
  unfold line_occurrences. apply sorted_app.
  - unfold markdown_occurrences. apply sorted_map, sorted_filter.
    eapply sorted_impl; [|apply finditer_sorted].
    intros a b Hab. right. simpl. auto.
  - unfold bare_occurrences. apply sorted_map.
    eapply sorted_impl; [|apply finditer_sorted].
    intros a b Hab. right. simpl. auto.
  - intros a b Ha Hb.
    apply in_map_iff in Ha as [ma [<- _]].
    apply in_map_iff in Hb as [mb [<- _]].
    right. simpl. auto.
Qed.

Lemma occurrences_from_sorted f : forall n,
  StronglySorted emitted_before (occurrences_from n f).
Proof.
  induction f as [|line f IH]; intros n; simpl; [constructor|].
  apply sorted_app; [apply line_occurrences_sorted | apply IH |].
  intros a b Ha Hb. left.
  apply line_occurrences_line in Ha. apply occurrences_from_line in Hb. lia.
Qed.

(** Every link of a line of the file is in the result, under the number
    of that line. *)
Lemma extract_from_In f : forall n i line u,
  nth_error f i = Some line ->
  In u (markdown_links line ++ bare_urls line) ->
  In ((n + Z.of_nat i)%Z, u) (extract_from n f).
Proof.
  induction f as [|l f IH]; intros n i line u Hn Hu.
  - destruct i; discriminate.
  - destruct i as [|i]; simpl in Hn |- *; apply in_app_iff.
    + injection Hn as ->. left. rewrite Z.add_0_r.
      unfold line_links. rewrite <- map_app. now apply in_map.
    + right. replace (n + Z.pos (Pos.of_succ_nat i))%Z
        with ((n + 1) + Z.of_nat i)%Z by lia.
      eapply IH; eassumption.
Qed.

Lemma extract_links_In f i line u :
  nth_error f i = Some line ->
  In u (markdown_links line ++ bare_urls line) ->
  In ((Z.of_nat i + 1)%Z, u) (extract_links f).
Proof.
  intros Hn Hu. rewrite Z.add_comm. now apply extract_from_In with line.
Qed.

Lemma extract_from_ge f : forall n e,
  In e (extract_from n f) -> (n <= fst e)%Z.
Proof.
  intros n e. rewrite extract_from_occurrences.
  intros H. apply in_map_iff in H as [o [<- Ho]].
  now apply occurrences_from_line in Ho.
Qed.

(** An entry occurs in the result as often as its URL is found on its
    line. *)
Lemma extract_from_count f : forall n i line u,
  nth_error f i = Some line ->
  count_occ entry_eq_dec (extract_from n f) ((n + Z.of_nat i)%Z, u)
  = count_occ str_eq_dec (markdown_links line ++ bare_urls line) u.
Proof.
  induction f as [|l f IH]; intros n i line u Hn.
  - destruct i; discriminate.
  - cbn [extract_from]. rewrite count_occ_app.
    unfold line_links at 1. rewrite <- map_app.
    destruct i as [|i]; simpl in Hn.
    + injection Hn as ->. rewrite Z.add_0_r.
      rewrite <- (count_occ_map (pair n) str_eq_dec entry_eq_dec)
        by (intros x y E; now injection E).
      replace (count_occ entry_eq_dec (extract_from (n + 1) f) (n, u))
        with 0; [lia|].
      symmetry. apply count_occ_not_In. intros Hin.
      apply extract_from_ge in Hin. simpl in Hin. lia.
    + replace (n + Z.of_nat (S i))%Z with ((n + 1) + Z.of_nat i)%Z by lia.
      rewrite (IH _ _ _ u Hn).
      replace (count_occ entry_eq_dec
                 (map (pair n) (markdown_links l ++ bare_urls l))
                 ((n + 1 + Z.of_nat i)%Z, u)) with 0; [reflexivity|].
      symmetry. apply count_occ_not_In. intros Hin.
      apply in_map_iff in Hin as [x [E _]]. injection E as E _. lia.
Qed.

Lemma prev_after_last prev t c :
  prev_after prev t = Some c ->
  (t = [] /\ prev = Some c) \/ exists t', t = t' ++ [c].
Proof.
  destruct t as [|x t] using rev_ind; simpl; intros H; [now left|].
  rewrite prev_after_app in H. injection H as ->. right. now exists t.
Qed.

End ExtractFacts.
Import ExtractFacts.

(* ------------------------------------------------------------------ *)
(** ** The extractor: order of the result *)

(** C5, as the specification states it, fails: on one line the bare URL
    at column 0 is read before the markdown link at column 14, yet the
    markdown link is emitted first. *)
Lemma markdown_link_emitted_before_earlier_bare_url :
  let line := lit "https://a.com [x](https://b.com)" in
  extract_links [line]
  = [(1%Z, lit "https://b.com"); (1%Z, lit "https://a.com")]
  /\ occurrences [line]
     = [MkOcc 1 Markdown 14 (lit "https://b.com");
        MkOcc 1 Bare 0 (lit "https://a.com")]
  /\ ~ StronglySorted reads_before (occurrences [line]).
Proof.
  cbv zeta. split; [vm_compute; reflexivity|].
  assert (E : occurrences [lit "https://a.com [x](https://b.com)"]
              = [MkOcc 1 Markdown 14 (lit "https://b.com");
                 MkOcc 1 Bare 0 (lit "https://a.com")])
    by (vm_compute; reflexivity).
  split; [exact E|]. rewrite E. intros H.
  inversion H as [|? ? _ F]; subst.
  inversion F as [|? ? R _]; subst.
  destruct R as [R|[_ R]]; simpl in R; lia.
Qed.

(** C5, amended: the result lists the links line by line from top to
    bottom; within a line the markdown links come first, from left to
    right, and the bare URLs after them, from left to right.  Nothing is
    merged: an entry occurs as often as its URL is found on its line, and
    the same URL on another line is another entry. *)
Theorem extract_links_in_loop_order (f : list str) :
  extract_links f = map entry (occurrences f)
  /\ StronglySorted emitted_before (occurrences f)
  /\ (forall i line u,
         nth_error f i = Some line ->
         count_occ entry_eq_dec (extract_links f) ((Z.of_nat i + 1)%Z, u)
         = count_occ str_eq_dec (markdown_links line ++ bare_urls line) u).
Proof.
  split; [apply extract_links_occurrences|].
  split; [apply occurrences_from_sorted|].
  intros i line u Hn. rewrite Z.add_comm. now apply extract_from_count.
Qed.

Lemma extract_links_in_loop_order_witness :
  let f := [lit "https://a.com"; lit "[a](https://a.com) https://a.com"] in
  count_occ entry_eq_dec (extract_links f) (2%Z, lit "https://a.com")
  = count_occ str_eq_dec
      (markdown_links (lit "[a](https://a.com) https://a.com")
       ++ bare_urls (lit "[a](https://a.com) https://a.com"))
      (lit "https://a.com").
Proof.
  cbv zeta.
  apply (proj2 (proj2 (extract_links_in_loop_order
                         [lit "https://a.com";
                          lit "[a](https://a.com) https://a.com"]))
               1 (lit "[a](https://a.com) https://a.com")
               (lit "https://a.com")).
  reflexivity.
Defined.

(** The same URL on two lines, and twice on one line, is kept every
    time. *)
Example duplicates_are_kept :
  extract_links [lit "https://a.com"; lit "[a](https://a.com) https://a.com"]
  = [(1%Z, lit "https://a.com"); (2%Z, lit "https://a.com");
     (2%Z, lit "https://a.com")].
Proof. vm_compute. reflexivity. Qed.

(** C8: the line numbers of the result never decrease. *)
Theorem line_numbers_nondecreasing (f : list str) :
  StronglySorted Z.le (map fst (extract_links f)).
Proof.
  unfold extract_links. generalize 1%Z.
  induction f as [|line f IH]; intros n; simpl; [constructor|].
  rewrite map_app. apply sorted_app; [| apply IH |].
  - unfold line_links. rewrite <- map_app, map_map. simpl.
    induction (markdown_links line ++ bare_urls line) as [|u l IHl]; simpl;
      constructor; [assumption|].
    apply Forall_forall. intros x Hx.
    apply in_map_iff in Hx as [? [<- _]]. lia.
  - intros a b Ha Hb.
    apply in_map_iff in Ha as [ea [<- Ha]].
    apply in_map_iff in Hb as [eb [<- Hb]].
    apply extract_from_ge in Hb.
    rewrite line_links_occurrences in Ha.
    apply in_map_iff in Ha as [o [<- Ho]].
    apply line_occurrences_line in Ho. simpl. lia.
Qed.

(* ------------------------------------------------------------------ *)
(** ** The extractor: markdown links *)


(** The capture of the target stops at the first closing parenthesis,
    whether a backslash stands before it or not. *)
Example markdown_target_stops_at_escaped_parenthesis :
  extract_links [lit "[a](https://x.com/\)b)"]
  = [(1%Z, lit "https://x.com/" ++ [92%N])].
Proof. vm_compute. reflexivity. Qed.



(* ------------------------------------------------------------------ *)
(** ** The extractor: bare URLs *)

(** C7, as the specification states it, fails: [https://example.org/y]
    begins with https://, follows a slash, not a parenthesis, and runs to
    the end of the line, but it lies inside the match that starts at
    column 0; only the longer URL is emitted. *)
Lemma bare_url_inside_earlier_match_lost :
  let line := lit "http://archive.example/https://example.org/y" in
  line = lit "http://archive.example/" ++ lit "https://example.org/y" ++ []
  /\ is_http (lit "https://example.org/y") = true
  /\ forallb not_space_rparen (lit "https://example.org/y") = true
  /\ (forall pre', lit "http://archive.example/" <> pre' ++ [chr "("])
  /\ extract_links [line] = [(1%Z, line)]
  /\ ~ In (1%Z, lit "https://example.org/y") (extract_links [line]).
Proof.
  cbv zeta. repeat split; try reflexivity.
  - intros pre' E. apply (f_equal (@rev char)) in E.
    rewrite rev_app_distr in E. discriminate E.
  - vm_compute. intros [E|[]]. discriminate E.
Qed.

(** The scheme alone, with nothing after the two slashes, is not
    emitted either. *)
Example bare_scheme_alone_not_emitted :
  extract_links [lit "see https:// here"] = [].
Proof. vm_compute. reflexivity. Qed.

(** C7, amended: on a line, http:// or https:// followed by at least one
    character that is neither white space nor a closing parenthesis, not
    right after an opening parenthesis, is emitted with its line number as
    the URL that runs up to the next white space, closing parenthesis or
    end of line, provided no match of the bare pattern that starts before
    it on the line runs into it. *)
Theorem bare_url_emitted
  (f : list str) (i : nat) (line pre scheme body post : str) :
  nth_error f i = Some line ->
  line = pre ++ scheme ++ body ++ post ->
  scheme = lit "http://" \/ scheme = lit "https://" ->
  body <> [] -> forallb not_space_rparen body = true ->
  stops not_space_rparen post ->
  (forall pre', pre <> pre' ++ [chr "("]) ->
  (forall m, In m (finditer bare_re line) ->
             m_start m < length pre -> m_end m <= length pre) ->
  In ((Z.of_nat i + 1)%Z, scheme ++ body) (extract_links f).
Proof.
  intros Hn -> Hscheme Hne Hb Hs Hparen Hfree.
  apply extract_links_In with (1 := Hn). apply in_app_iff. right.
  destruct (@scan_reach bare_re pre (scheme ++ body ++ post) 0 None 0)
    as [ms Hms]; [lia | exact Hfree |].
  assert (Hprev : prev_after None pre <> Some (chr "(")).
  { intros E. apply prev_after_last in E as [[_ E]|[pre' E]];
      [discriminate | now apply (Hparen pre')]. }
  pose proof (bare_match post Hprev Hscheme Hne Hb Hs) as Hm.
  unfold bare_urls, findall0, finditer. rewrite Hms.
  rewrite map_app. apply in_app_iff. right.
  assert (Hcons : exists x s, scheme ++ body ++ post = x :: s).
  { destruct Hscheme as [-> | ->]; eexists; eexists; reflexivity. }
  destruct Hcons as (x & s & E).
  pose proof (firstn_consumed (scheme ++ body) post) as F.
  rewrite <- app_assoc in F. unfold consumed.
  rewrite E in *. cbn [scan]. rewrite Hm.
  cbn [map m_text]. left. exact F.
Qed.

Lemma bare_url_emitted_witness :
  In (1%Z, lit "https://dead.example/page")
     (extract_links [lit "Dead: https://dead.example/page now"]).
Proof.
  apply (@bare_url_emitted
           [lit "Dead: https://dead.example/page now"] 0
           (lit "Dead: https://dead.example/page now")
           (lit "Dead: ") (lit "https://") (lit "dead.example/page")
           (lit " now"));
    try reflexivity; try discriminate.
  - now right.
  - intros pre' E. apply (f_equal (@rev char)) in E.
    rewrite rev_app_distr in E. discriminate E.
  - intros m Hm Hlt. vm_compute in Hm. destruct Hm as [<-|[]].
    simpl in Hlt. lia.
Defined.

(* ------------------------------------------------------------------ *)
(** ** The extractor: links with an empty part *)

Lemma app_same_length {A} (a a' b b' : list A) :
  a ++ b = a' ++ b' -> length a = length a' -> a = a' /\ b = b'.
Proof.
  revert a'; induction a as [|x a IH]; intros [|y a'] E L;
    simpl in *; try discriminate; [now split|].
  injection E as -> E. destruct (IH a' E) as [-> ->]; [lia | now split].
Qed.

(** No match is reported at a position where an attempt fails. *)
Lemma no_match_reported_at r pre rest :
  match_at r (prev_after None pre) rest = None ->
  Forall (fun m => m_start m <> length pre) (finditer r (pre ++ rest)).
Proof.
  intros Hnone. apply Forall_forall. intros m Hm Hpos.
  apply scan_attempt in Hm as (a & b & E & Hs & Hsome).
  simpl in Hs. rewrite Hpos in Hs. symmetry in E.
  destruct (app_same_length _ _ _ _ E (eq_sym Hs)) as [-> ->].
  now apply Hsome.
Qed.

(** The markdown rule reports no match that starts at the opening
    bracket of a link whose display text is empty or whose target is
    empty, wherever the link stands on the line; on the two lines of the
    examples the rule emits nothing. *)
Lemma no_match_starts_at_empty_part (pre post : str) :
  (forall target,
      Forall (fun m => m_start m <> length pre)
        (finditer markdown_re
           (pre ++ lit "[](" ++ target ++ lit ")" ++ post)))
  /\ (forall text,
         forallb not_rbracket text = true ->
         Forall (fun m => m_start m <> length pre)
           (finditer markdown_re (pre ++ lit "[" ++ text ++ lit "]()" ++ post)))
  /\ markdown_links (lit "[](https://example.com)") = []
  /\ markdown_links (lit "[text]()") = [].
Proof.
  split; [|split; [|split; vm_compute; reflexivity]].
  - intros target. apply no_match_reported_at.
    change (lit "[](" ++ target ++ lit ")" ++ post)
      with (lit "[]" ++ chr "(" :: target ++ lit ")" ++ post).
    apply markdown_no_text.
  - intros text Hbt. apply no_match_reported_at.
    now apply markdown_no_target.
Qed.

(** A bracket before such a link makes another link, whose display text
    is that bracket; the match starts one column earlier. *)
Example bracket_before_empty_text :
  map m_start (finditer markdown_re (lit "[[](https://e.com)")) = [0]
  /\ markdown_links (lit "[[](https://e.com)") = [lit "https://e.com"].
Proof. split; vm_compute; reflexivity. Qed.


(* ------------------------------------------------------------------ *)
(** ** The prober *)

Section ProberFacts.

Variable exn : Type.
Variable isinstance : exn -> exc_class -> bool.
Variable str_of_exn : exn -> str.
Variable send : session -> list request -> request -> result exn response.

Lemma history_app (a b : world) : history (a ++ b) = history a ++ history b.
Proof.
  induction a as [|[s|q|r] a IH]; simpl; [reflexivity | assumption ..|].
  now rewrite IH.
Qed.

(** What the [try] block does, by the answer to the first request. *)
Lemma final_response_cases s url timeout w :
  let h := history w in
  let hd := head_request url timeout in
  let gt := get_request url timeout in
  match send s h hd with
  | Raise e => final_response send s url timeout w = (Raise e, w ++ [Requested hd])
  | Ret r1 =>
      if (status_code r1 >=? 400)%Z
      then final_response send s url timeout w
           = (send s (h ++ [hd]) gt, w ++ [Requested hd; Requested gt])
      else final_response send s url timeout w = (Ret r1, w ++ [Requested hd])
  end.
Proof.
  cbv zeta. unfold final_response, bind, session_head, session_get,
    session_request, ret, head_request, get_request.
  destruct (send s (history w) _) as [r1|e]; [|reflexivity].
  destruct (status_code r1 >=? 400)%Z; [|reflexivity].
  rewrite history_app, <- app_assoc. reflexivity.
Qed.

Lemma check_link_returned s url timeout w resp w' :
  final_response send s url timeout w = (Ret resp, w') ->
  check_link isinstance str_of_exn send s url timeout w = (Ret (verdict resp), w').
Proof.
  intros H. unfold check_link, try_except, bind. now rewrite H.
Qed.

Lemma check_link_raised s url timeout w e w' :
  final_response send s url timeout w = (Raise e, w') ->
  check_link isinstance str_of_exn send s url timeout w = handlers isinstance str_of_exn e w'.
Proof.
  intros H. unfold check_link, try_except, bind. now rewrite H.
Qed.

(** C1: the verdict follows the status code of the final response: below
    400 the link is valid, [(True, "OK", code)]; from 400 on it is broken,
    [(False, "HTTP <code>", code)].  399 is valid and 400 is broken with
    "HTTP 400". *)
Theorem verdict_by_status_code s url timeout w resp w' :
  final_response send s url timeout w = (Ret resp, w') ->
  ((status_code resp < 400)%Z ->
   check_link isinstance str_of_exn send s url timeout w = (Ret (true, lit "OK", status_code resp), w'))
  /\ ((400 <= status_code resp)%Z ->
      check_link isinstance str_of_exn send s url timeout w
      = (Ret (false, lit "HTTP " ++ str_of_int (status_code resp),
              status_code resp), w'))
  /\ (status_code resp = 399%Z ->
      check_link isinstance str_of_exn send s url timeout w = (Ret (true, lit "OK", 399%Z), w'))
  /\ (status_code resp = 400%Z ->
      check_link isinstance str_of_exn send s url timeout w = (Ret (false, lit "HTTP 400", 400%Z), w')).
Proof.
  intros H. rewrite (check_link_returned _ _ _ _ H). unfold verdict.
  repeat split.
  - intros L. apply Z.ltb_lt in L. now rewrite L.
  - intros L. apply Z.ltb_ge in L. now rewrite L.
  - intros ->. reflexivity.
  - intros ->. reflexivity.
Qed.

(** C2: a failure of the client during the two requests never leaves
    [check_link]: the result is broken with status code 0 and the reason
    of the first clause that applies, Timeout, Connection Error, Too Many
    Redirects, "Request Error: <detail>" for another request exception and
    "Unknown Error: <detail>" for anything else; so [check_link] always
    returns. *)
Theorem failures_become_broken s url timeout w :
  (forall e w',
      final_response send s url timeout w = (Raise e, w') ->
      isinstance e Exception = true ->
      exists reason,
        check_link isinstance str_of_exn send s url timeout w = (Ret (false, reason, 0%Z), w')
        /\ (isinstance e Timeout = true -> reason = lit "Timeout")
        /\ (isinstance e Timeout = false ->
            isinstance e ConnectionError = true ->
            reason = lit "Connection Error")
        /\ (isinstance e Timeout = false ->
            isinstance e ConnectionError = false ->
            isinstance e TooManyRedirects = true ->
            reason = lit "Too Many Redirects")
        /\ (isinstance e Timeout = false ->
            isinstance e ConnectionError = false ->
            isinstance e TooManyRedirects = false ->
            isinstance e RequestException = true ->
            reason = lit "Request Error: " ++ str_of_exn e)
        /\ (isinstance e Timeout = false ->
            isinstance e ConnectionError = false ->
            isinstance e TooManyRedirects = false ->
            isinstance e RequestException = false ->
            reason = lit "Unknown Error: " ++ str_of_exn e))
  /\ ((forall e w',
          final_response send s url timeout w = (Raise e, w') ->
          isinstance e Exception = true) ->
      exists r w', check_link isinstance str_of_exn send s url timeout w = (Ret r, w')).
Proof.
  assert (Main : forall e w',
      final_response send s url timeout w = (Raise e, w') ->
      isinstance e Exception = true ->
      exists reason,
        check_link isinstance str_of_exn send s url timeout w = (Ret (false, reason, 0%Z), w')
        /\ (isinstance e Timeout = true -> reason = lit "Timeout")
        /\ (isinstance e Timeout = false ->
            isinstance e ConnectionError = true ->
            reason = lit "Connection Error")
        /\ (isinstance e Timeout = false ->
            isinstance e ConnectionError = false ->
            isinstance e TooManyRedirects = true ->
            reason = lit "Too Many Redirects")
        /\ (isinstance e Timeout = false ->
            isinstance e ConnectionError = false ->
            isinstance e TooManyRedirects = false ->
            isinstance e RequestException = true ->
            reason = lit "Request Error: " ++ str_of_exn e)
        /\ (isinstance e Timeout = false ->
            isinstance e ConnectionError = false ->
            isinstance e TooManyRedirects = false ->
            isinstance e RequestException = false ->
            reason = lit "Unknown Error: " ++ str_of_exn e)).
  { intros e w' H Hexc. rewrite (check_link_raised _ _ _ _ H).
    unfold handlers, ret.
    destruct (isinstance e Timeout) eqn:E1;
      [eexists; split; [reflexivity|]; repeat split; congruence|].
    destruct (isinstance e ConnectionError) eqn:E2;
      [eexists; split; [reflexivity|]; repeat split; congruence|].
    destruct (isinstance e TooManyRedirects) eqn:E3;
      [eexists; split; [reflexivity|]; repeat split; congruence|].
    destruct (isinstance e RequestException) eqn:E4;
      [eexists; split; [reflexivity|]; repeat split; congruence|].
    rewrite Hexc. eexists; split; [reflexivity|]; repeat split; congruence. }
  split; [exact Main|].
  intros Hord.
  destruct (final_response send s url timeout w) as [[resp|e] w'] eqn:H.
  - exists (verdict resp), w'. now apply check_link_returned.
  - destruct (Main e w' eq_refl (Hord e w' eq_refl)) as (reason & Hr & _).
    now exists (false, reason, 0%Z), w'.
Qed.

Lemma handlers_caught e w :
  handlers isinstance str_of_exn e w = (caught isinstance str_of_exn e, w).
Proof.
  unfold caught, handlers, ret, raise.
  repeat match goal with |- context [if ?b then _ else _] => destruct b end;
    reflexivity.
Qed.

Lemma check_link_probe_on s url timeout w :
  check_link isinstance str_of_exn send s url timeout w
  = (fst (probe_on isinstance str_of_exn send s url timeout (history w)),
     w ++ map Requested
            (snd (probe_on isinstance str_of_exn send s url timeout
                           (history w)))).
Proof.
  pose proof (final_response_cases s url timeout w) as H. cbv zeta in H.
  unfold probe_on.
  destruct (send s (history w) (head_request url timeout)) as [r1|e].
  - destruct (status_code r1 >=? 400)%Z.
    + destruct (send s (history w ++ [head_request url timeout])
                     (get_request url timeout)) as [r2|e].
      * now rewrite (check_link_returned _ _ _ _ H).
      * now rewrite (check_link_raised _ _ _ _ H), handlers_caught.
    + now rewrite (check_link_returned _ _ _ _ H).
  - now rewrite (check_link_raised _ _ _ _ H), handlers_caught.
Qed.

(** C10: when the first request answers with a status code below 400,
    [check_link] makes that request only and returns valid with its
    status code; a second request, the GET, appears only after a first
    answer of 400 or more. *)
Theorem get_only_after_failed_head s url timeout w :
  (forall resp,
      send s (history w) (head_request url timeout) = Ret resp ->
      (status_code resp < 400)%Z ->
      check_link isinstance str_of_exn send s url timeout w
      = (Ret (true, lit "OK", status_code resp),
         w ++ [Requested (head_request url timeout)]))
  /\ (exists evs,
         snd (check_link isinstance str_of_exn send s url timeout w) = w ++ evs
         /\ forall req,
             In (Requested req) evs -> req_method req = GET ->
             exists resp,
               send s (history w) (head_request url timeout) = Ret resp
               /\ (400 <= status_code resp)%Z).
Proof.
  rewrite check_link_probe_on. unfold probe_on. split.
  - intros resp -> L. unfold verdict.
    assert (G : (status_code resp >=? 400)%Z = false) by lia.
    apply Z.ltb_lt in L. now rewrite G, L.
  - eexists. split; [reflexivity|]. intros req Hin Hget.
    destruct (send s (history w) (head_request url timeout)) as [r1|e].
    + destruct (status_code r1 >=? 400)%Z eqn:G.
      * exists r1. split; [reflexivity | lia].
      * simpl in Hin. destruct Hin as [E|[]]. injection E as <-.
        discriminate Hget.
    + simpl in Hin. destruct Hin as [E|[]]. injection E as <-.
      discriminate Hget.
Qed.

End ProberFacts.

(* ------------------------------------------------------------------ *)
(** ** The driver *)

Section DriverFacts.

Variable exn : Type.
Variable isinstance : exn -> exc_class -> bool.
Variable str_of_exn : exn -> str.
Variable send : session -> list request -> request -> result exn response.

Lemma history_requested (l : list request) : history (map Requested l) = l.
Proof. induction l as [|r l IH]; simpl; [reflexivity | now rewrite IH]. Qed.

Lemma history_printed w s : history (w ++ [Printed s]) = history w.
Proof. rewrite history_app. apply app_nil_r. Qed.

Lemma history_slept w q : history (w ++ [Slept q]) = history w.
Proof. rewrite history_app. apply app_nil_r. Qed.

(** The verdicts depend on the requests made before, not on what was
    printed or slept in between. *)
Lemma verdicts_history s links : forall w1 w2,
  history w1 = history w2 ->
  verdicts isinstance str_of_exn send s links w1
  = verdicts isinstance str_of_exn send s links w2.
Proof.
  induction links as [|[n url] links IH]; intros w1 w2 H; simpl;
    [reflexivity|].
  rewrite (check_link_probe_on isinstance str_of_exn send s url default_timeout w1).
  rewrite (check_link_probe_on isinstance str_of_exn send s url default_timeout w2).
  rewrite H. f_equal. apply IH.
  now rewrite !history_app, H.
Qed.

(** The loop, against the verdicts of its links: it ends normally exactly
    when every probe returned, and then its list of broken links is empty
    exactly when it was empty before and every verdict is valid. *)
Lemma check_each_spec s total links : forall idx valid broken w,
  match check_each isinstance str_of_exn send s total idx links valid broken w
  with
  | (Ret (_, broken'), _) =>
      forallb returned (verdicts isinstance str_of_exn send s links w) = true
      /\ (broken' = [] <->
          broken = []
          /\ forallb classified_valid
               (verdicts isinstance str_of_exn send s links w) = true)
  | (Raise _, _) =>
      forallb returned (verdicts isinstance str_of_exn send s links w) = false
  end.
Proof.
  induction links as [|[n url] links IH]; intros idx valid broken w.
  - simpl. unfold ret. split; [reflexivity|]. tauto.
  - cbn [check_each verdicts].
    unfold bind at 1. unfold print at 1.
    unfold bind at 1.
    rewrite (check_link_probe_on isinstance str_of_exn send s url
               default_timeout (w ++ _)).
    rewrite (check_link_probe_on isinstance str_of_exn send s url
               default_timeout w).
    rewrite history_printed.
    set (p := probe_on isinstance str_of_exn send s url default_timeout
                       (history w)).
    destruct p as [[[[is_valid message] code]|e] new] eqn:Ep;
      cbn [fst snd]; [|reflexivity].
    set (w1 := (w ++ [Printed (progress_line idx total n url)])
               ++ map Requested new).
    assert (Hw1 : forall k,
               history k = history w1 ->
               verdicts isinstance str_of_exn send s links k
               = verdicts isinstance str_of_exn send s links
                   (w ++ map Requested new)).
    { intros k Hk. apply verdicts_history. rewrite Hk. unfold w1.
      now rewrite !history_app, app_nil_r. }
    destruct is_valid.
    + unfold bind at 1. unfold bind at 1. unfold print at 1.
      unfold ret at 1. unfold bind at 1.
      destruct (idx <? total)%Z.
      * unfold sleep at 1. unfold bind at 1. unfold print at 1.
        cbn [fst snd].
        match goal with |- context [check_each _ _ _ _ _ _ links ?v ?b ?k] =>
          specialize (IH (idx + 1)%Z v b k); rewrite (Hw1 k) in IH
        end.
        2:{ now rewrite !history_app, !app_nil_r. }
        destruct (check_each _ _ _ _ _ _ links _ _ _) as [[[v' b']|e] k'];
          cbn [forallb returned classified_valid andb]; exact IH.
      * unfold ret at 1. unfold bind at 1. unfold print at 1.
        cbn [fst snd].
        match goal with |- context [check_each _ _ _ _ _ _ links ?v ?b ?k] =>
          specialize (IH (idx + 1)%Z v b k); rewrite (Hw1 k) in IH
        end.
        2:{ now rewrite !history_app, !app_nil_r. }
        destruct (check_each _ _ _ _ _ _ links _ _ _) as [[[v' b']|e] k'];
          cbn [forallb returned classified_valid andb]; exact IH.
    + unfold bind at 1. unfold bind at 1. unfold print at 1.
      unfold ret at 1. unfold bind at 1.
      destruct (idx <? total)%Z.
      * unfold sleep at 1. unfold bind at 1. unfold print at 1.
        cbn [fst snd].
        match goal with |- context [check_each _ _ _ _ _ _ links ?v ?b ?k] =>
          specialize (IH (idx + 1)%Z v b k); rewrite (Hw1 k) in IH
        end.
        2:{ now rewrite !history_app, !app_nil_r. }
        destruct (check_each _ _ _ _ _ _ links _ _ _) as [[[v' b']|e] k'];
          cbn [forallb returned classified_valid andb]; [|exact IH].
        destruct IH as [IH1 IH2]. split; [exact IH1|].
        rewrite IH2. split; [|intros [_ F]; discriminate F].
        intros [F _]. now destruct broken.
      * unfold ret at 1. unfold bind at 1. unfold print at 1.
        cbn [fst snd].
        match goal with |- context [check_each _ _ _ _ _ _ links ?v ?b ?k] =>
          specialize (IH (idx + 1)%Z v b k); rewrite (Hw1 k) in IH
        end.
        2:{ now rewrite !history_app, !app_nil_r. }
        destruct (check_each _ _ _ _ _ _ links _ _ _) as [[[v' b']|e] k'];
          cbn [forallb returned classified_valid andb]; [|exact IH].
        destruct IH as [IH1 IH2]. split; [exact IH1|].
        rewrite IH2. split; [|intros [_ F]; discriminate F].
        intros [F _]. now destruct broken.
Qed.

Lemma print_broken_returns (l : list (Z * str * str)) : forall w,
  exists w', print_broken exn l w = (Ret tt, w').
Proof.
  induction l as [|[[n url] message] l IH]; intros w; simpl.
  - now exists w.
  - unfold bind, print. apply IH.
Qed.

Lemma caught_ordinary e :
  isinstance e Exception = true ->
  returned (caught isinstance str_of_exn e) = true.
Proof.
  intros H. unfold caught, handlers, ret. rewrite H.
  repeat match goal with |- context [if ?b then _ else _] => destruct b end;
    reflexivity.
Qed.

Lemma verdicts_returned s links :
  ordinary_failures isinstance send ->
  forall w,
    forallb returned (verdicts isinstance str_of_exn send s links w) = true.
Proof.
  intros Hord. induction links as [|[n url] links IH]; intros w; simpl;
    [reflexivity|].
  rewrite check_link_probe_on. cbn [forallb]. rewrite IH, andb_true_r.
  unfold probe_on.
  destruct (send s (history w) _) as [r1|e] eqn:E1; cbn [fst].
  - destruct (status_code r1 >=? 400)%Z; [|reflexivity]. cbn [fst].
    destruct (send s (history w ++ _) _) as [r2|e] eqn:E2; [reflexivity|].
    apply caught_ordinary. eapply Hord; eassumption.
  - apply caught_ordinary. eapply Hord; eassumption.
Qed.

Lemma valid_returned (vs : list (result exn (bool * str * Z))) :
  forallb classified_valid vs = true -> forallb returned vs = true.
Proof.
  induction vs as [|v vs IH]; simpl; [reflexivity|].
  intros H. apply andb_true_iff in H as [Hv H]. rewrite (IH H), andb_true_r.
  now destruct v.
Qed.

Lemma broken_or_valid (vs : list (result exn (bool * str * Z))) :
  forallb returned vs = true ->
  existsb classified_broken vs = negb (forallb classified_valid vs).
Proof.
  induction vs as [|v vs IH]; simpl; [reflexivity|].
  intros H. apply andb_true_iff in H as [Hv H]. rewrite (IH H).
  destruct v as [[[[|] m] c]|e]; simpl; try reflexivity; discriminate Hv.
Qed.

(** How a run of [main] ends, by the list of broken links the loop
    leaves. *)
Lemma main_cases f w :
  let links := extract_links f in
  let vs := verdicts isinstance str_of_exn send create_session links w in
  match fst (main isinstance str_of_exn send f w) with
  | Ret code =>
      (links = [] /\ code = 1%Z)
      \/ (links <> [] /\ forallb returned vs = true
          /\ ((forallb classified_valid vs = true /\ code = 0%Z)
              \/ (forallb classified_valid vs = false /\ code = 1%Z)))
  | Raise _ => links <> [] /\ forallb returned vs = false
  end.
Proof.
  cbv zeta. unfold main.
  unfold bind at 1. unfold print at 1.
  destruct (extract_links f) as [|l links] eqn:El.
  - cbn [fst bind print ret]. left. split; reflexivity.
  - unfold bind at 1. unfold print at 1. unfold bind at 1.
    match goal with |- context [check_each _ _ _ ?s ?t ?i ?ls ?v ?b ?k] =>
      pose proof (check_each_spec s t ls i v b k) as H;
      rewrite (verdicts_history s ls k w) in H
    end.
    2:{ now rewrite !history_app, !app_nil_r. }
    destruct (check_each _ _ _ _ _ _ _ _ _ _) as [[[v' b']|e] k'].
    + destruct H as [Hret Hb].
      repeat (unfold bind at 1; unfold print at 1).
      destruct b' as [|b0 b'].
      * cbn [fst ret]. right.
        split; [discriminate|]. split; [exact Hret|].
        left. split; [|reflexivity]. now apply Hb.
      * assert (Hv : forallb classified_valid
                       (verdicts isinstance str_of_exn send create_session
                                 (l :: links) w) = false).
        { destruct (forallb classified_valid _) eqn:Ev; [|reflexivity].
          assert (F : b0 :: b' = []) by now apply Hb. discriminate F. }
        unfold bind at 1.
        match goal with |- context [print_broken _ ?bl ?k] =>
          destruct (print_broken_returns bl k) as [k'' ->]
        end.
        cbn [fst ret]. right.
        split; [discriminate|]. split; [exact Hret|].
        right. split; [exact Hv | reflexivity].
    + cbn [fst]. split; [discriminate | exact H].
Qed.

(** C3: the run ends with exit code 0 exactly when links were extracted
    and every probe gave a valid verdict; with a client that fails with
    ordinary exceptions only, it ends with exit code 1 exactly when no
    link was extracted or some verdict is broken. *)
Theorem exit_code_of_main f w :
  let links := extract_links f in
  let vs := verdicts isinstance str_of_exn send create_session links w in
  ((exists w', main isinstance str_of_exn send f w = (Ret 0%Z, w'))
   <-> links <> [] /\ forallb classified_valid vs = true)
  /\ (ordinary_failures isinstance send ->
      ((exists w', main isinstance str_of_exn send f w = (Ret 1%Z, w'))
       <-> links = [] \/ existsb classified_broken vs = true)).
Proof.
  cbv zeta. pose proof (main_cases f w) as H. cbv zeta in H.
  destruct (main isinstance str_of_exn send f w) as [[code|e] w'] eqn:Em;
    cbn [fst] in H.
  - split.
    + split.
      * intros [k Hk]. injection Hk as -> _.
        destruct H as [[_ F]|(Hne & _ & [[Hv _]|[_ F]])];
          try discriminate F. now split.
      * intros [Hne Hv]. exists w'. f_equal. f_equal.
        destruct H as [[Hnil _]|(_ & _ & [[_ Hc]|[F _]])];
          [contradiction | exact Hc | congruence].
    + intros Hord. split.
      * intros [k Hk]. injection Hk as -> _.
        destruct H as [[Hnil _]|(Hne & Hret & [[_ F]|[Hv _]])];
          [now left | discriminate F |].
        right. rewrite (broken_or_valid _ Hret), Hv. reflexivity.
      * intros Hc. exists w'. f_equal. f_equal.
        destruct H as [[_ Hcode]|(Hne & Hret & [[Hv _]|[_ Hcode]])];
          [exact Hcode | | exact Hcode].
        destruct Hc as [Hnil|Hb]; [contradiction|].
        rewrite (broken_or_valid _ Hret), Hv in Hb. discriminate Hb.
  - destruct H as [Hne Hret]. split.
    + split.
      * intros [k Hk]. discriminate Hk.
      * intros [_ Hv]. apply valid_returned in Hv. congruence.
    + intros Hord.
      rewrite verdicts_returned in Hret by exact Hord.
      discriminate Hret.
Qed.

(** C4: when no link is extracted, [main] prints its first line and the
    error, ends with exit code 1 and makes no request. *)
Theorem no_links_no_probe f w :
  extract_links f = [] ->
  main isinstance str_of_exn send f w
  = (Ret 1%Z,
     w ++ [Printed (magnifier :: lit " Extracting links from README.md...");
           Printed (cross_mark :: lit " No links found in README.md")])
  /\ history (snd (main isinstance str_of_exn send f w)) = history w.
Proof.
  intros H. unfold main, bind, print, ret. rewrite H. cbn [fst snd].
  rewrite <- app_assoc. split; [reflexivity|].
  rewrite history_app. apply app_nil_r.
Qed.

End DriverFacts.

(* ------------------------------------------------------------------ *)
(** ** The program on the scripted client *)

Lemma scripted_ordinary : ordinary_failures Scripted.isinstance Scripted.send.
Proof.
  intros s h r e. unfold Scripted.send.
  repeat match goal with
         | |- context [if ?b then _ else _] => destruct b
         | |- context [match ?m with HEAD => _ | GET => _ end] => destruct m
         end;
    intros E; try discriminate E; injection E as <-; reflexivity.
Defined.

Lemma verdict_by_status_code_witness :
  Scripted.check_link create_session (lit "https://good.example/page") 10 []
  = (Ret (true, lit "OK", 200%Z),
     [Requested (head_request (lit "https://good.example/page") 10)]).
Proof.
  refine (proj1 (@verdict_by_status_code _ Scripted.isinstance
                   Scripted.str_of_exn Scripted.send create_session
                   (lit "https://good.example/page") 10 []
                   (MkResponse 200) _ _) _).
  - reflexivity.
  - simpl. lia.
Defined.

Lemma failures_become_broken_witness :
  exists reason,
    Scripted.check_link create_session (lit "https://nowhere.example/") 10 []
    = (Ret (false, reason, 0%Z),
       [Requested (head_request (lit "https://nowhere.example/") 10)])
    /\ reason = lit "Connection Error".
Proof.
  destruct (proj1 (@failures_become_broken _ Scripted.isinstance
                     Scripted.str_of_exn Scripted.send create_session
                     (lit "https://nowhere.example/") 10 [])
                  Scripted.ConnectionRefused
                  [Requested (head_request (lit "https://nowhere.example/") 10)]
                  eq_refl eq_refl)
    as (reason & Hr & _ & Hc & _).
  exists reason. split; [exact Hr | now apply Hc].
Defined.

Lemma get_only_after_failed_head_witness :
  Scripted.check_link create_session (lit "https://good.example/page") 10 []
  = (Ret (true, lit "OK", 200%Z),
     [Requested (head_request (lit "https://good.example/page") 10)]).
Proof.
  refine (proj1 (@get_only_after_failed_head _ Scripted.isinstance
                   Scripted.str_of_exn Scripted.send create_session
                   (lit "https://good.example/page") 10 [])
                (MkResponse 200) _ _).
  - reflexivity.
  - simpl. lia.
Defined.

Lemma exit_code_of_main_witness :
  exists w', Scripted.main [lit "Dead: https://dead.example/page"] []
             = (Ret 1%Z, w').
Proof.
  apply (proj2 (@exit_code_of_main _ Scripted.isinstance Scripted.str_of_exn
                  Scripted.send [lit "Dead: https://dead.example/page"] [])
               scripted_ordinary).
  right. vm_compute. reflexivity.
Defined.

Lemma no_links_no_probe_witness :
  Scripted.main [lit "# A title"; lit "no link on this line"] []
  = (Ret 1%Z,
     [Printed (magnifier :: lit " Extracting links from README.md...");
      Printed (cross_mark :: lit " No links found in README.md")]).
Proof.
  refine (proj1 (@no_links_no_probe _ Scripted.isinstance Scripted.str_of_exn
                   Scripted.send
                   [lit "# A title"; lit "no link on this line"] [] _)).
  reflexivity.
Defined.

(** The three end-to-end runs of the specification. *)
Example one_valid_link_exits_0 :
  fst (Scripted.main [lit "See [docs](https://good.example/page)."] [])
  = Ret 0%Z.
Proof. vm_compute. reflexivity. Qed.

Example one_dead_link_exits_1 :
  Scripted.check_link create_session (lit "https://dead.example/page") 10 []
  = (Ret (false, lit "HTTP 404", 404%Z),
     [Requested (head_request (lit "https://dead.example/page") 10);
      Requested (get_request (lit "https://dead.example/page") 10)])
  /\ fst (Scripted.main [lit "Dead: https://dead.example/page"] []) = Ret 1%Z.
Proof. split; vm_compute; reflexivity. Qed.

Example timeout_among_two_links_exits_1 :
  fst (Scripted.main [lit "[ok](https://good.example/page)";
                      lit "https://slow.example/"] [])
  = Ret 1%Z.
Proof. vm_compute. reflexivity. Qed.

(** A server that refuses HEAD and serves GET is valid after the second
    request. *)
Example head_refused_get_served :
  Scripted.check_link create_session (lit "https://head.example/") 10 []
  = (Ret (true, lit "OK", 200%Z),
     [Requested (head_request (lit "https://head.example/") 10);
      Requested (get_request (lit "https://head.example/") 10)]).
Proof. vm_compute. reflexivity. Qed.

(* ------------------------------------------------------------------ *)
(** ** What a successful match looks like *)

Module MatchShape.

(** A repetition that succeeds stopped after some run of the set, and the
    continuation succeeded there. *)
Lemma rep_inv p k s : forall prev caps o,
  rep p prev s caps k = Some o ->
  exists t rest,
    s = t ++ rest /\ forallb p t = true
    /\ k (prev_after prev t) rest caps = Some o.
Proof.
  induction s as [|x s IH]; intros prev caps o H; simpl in H.
  - exists [], []. now repeat split.
  - destruct (p x) eqn:Hx.
    + destruct (rep p (Some x) s caps k) as [o'|] eqn:E.
      * injection H as ->. apply IH in E as (t & rest & -> & Ht & Hk).
        exists (x :: t), rest. simpl. rewrite Hx. now repeat split.
      * exists [], (x :: s). now repeat split.
    + exists [], (x :: s). now repeat split.
Qed.

Lemma rep_last_some p s : forall prev caps,
  rep p prev s caps (fun _ s' cp => Some (s', cp)) <> None.
Proof.
  induction s as [|x s IH]; intros prev caps; simpl; [discriminate|].
  destruct (p x); [|discriminate].
  destruct (rep p (Some x) s caps _) eqn:E; [discriminate|].
  now apply IH in E.
Qed.

(** At the end of a pattern the repetition reads the run to its end. *)
Lemma rep_last_inv p s : forall prev caps rest caps',
  rep p prev s caps (fun _ s' cp => Some (s', cp)) = Some (rest, caps') ->
  exists t, s = t ++ rest /\ forallb p t = true /\ stops p rest
            /\ caps' = caps.
Proof.
  induction s as [|x s IH]; intros prev caps rest caps' H; simpl in H.
  - injection H as <- <-. exists []. now repeat split.
  - destruct (p x) eqn:Hx.
    + destruct (rep p (Some x) s caps _) as [o'|] eqn:E.
      * injection H as ->. apply IH in E as (t & -> & Ht & Hs & ->).
        exists (x :: t). simpl. rewrite Hx. now repeat split.
      * now apply rep_last_some in E.
    + injection H as <- <-. exists []. now repeat split.
Qed.

Lemma run_chr_inv c prev s caps k o :
  run (Chr c) prev s caps k = Some o ->
  exists s', s = c :: s' /\ k (Some c) s' caps = Some o.
Proof.
  simpl. destruct s as [|x s]; [discriminate|].
  destruct (eqc x c) eqn:E; [|discriminate].
  apply eqc_eq in E as ->. intros H. now exists s.
Qed.

Lemma run_literal_inv l : forall prev s caps k o,
  run (literal l) prev s caps k = Some o ->
  exists s', s = l ++ s' /\ k (prev_after prev l) s' caps = Some o.
Proof.
  induction l as [|c l IH]; intros prev s caps k o H.
  - now exists s.
  - cbn [literal] in H. rewrite run_cat in H.
    apply run_chr_inv in H as (s1 & -> & H).
    apply IH in H as (s' & -> & H). now exists s'.
Qed.

Lemma run_not_after_inv c prev s caps k o :
  run (NotAfter c) prev s caps k = Some o ->
  prev <> Some c /\ k prev s caps = Some o.
Proof.
  simpl. destruct prev as [x|]; [|intros H; split; [discriminate | exact H]].
  destruct (eqc x c) eqn:E; [discriminate|].
  intros H. split; [|exact H]. intros F. injection F as ->.
  now rewrite eqc_refl in E.
Qed.

Lemma run_opt_chr_inv c prev s caps k o :
  run (Opt (Chr c)) prev s caps k = Some o ->
  (exists s', s = c :: s' /\ k (Some c) s' caps = Some o)
  \/ k prev s caps = Some o.
Proof.
  cbn [run]. destruct s as [|x s]; [now right|].
  destruct (eqc x c) eqn:E; [|now right].
  apply eqc_eq in E as ->.
  destruct (k (Some c) s caps) as [o'|] eqn:Ek; [|now right].
  intros H. injection H as ->. left. now exists s.
Qed.

Lemma run_group_rep1_inv p k prev s caps o :
  run (Group (Rep1 p)) prev s caps k = Some o ->
  exists t rest,
    t <> [] /\ s = t ++ rest /\ forallb p t = true
    /\ k (prev_after prev t) rest (caps ++ [t]) = Some o.
Proof.
  cbn [run]. destruct s as [|x s]; [discriminate|].
  destruct (p x) eqn:Hx; [|discriminate].
  intros H. apply rep_inv in H as (t & rest & -> & Ht & H).
  exists (x :: t), rest. split; [discriminate|]. split; [reflexivity|].
  split; [simpl; now rewrite Hx|].
  change (x :: t ++ rest) with ((x :: t) ++ rest) in H.
  now rewrite firstn_consumed in H.
Qed.

Lemma run_rep1_last_inv p prev s caps rest caps' :
  run (Rep1 p) prev s caps (fun _ s' cp => Some (s', cp)) = Some (rest, caps') ->
  exists t, t <> [] /\ s = t ++ rest /\ forallb p t = true /\ stops p rest
            /\ caps' = caps.
Proof.
  cbn [run]. destruct s as [|x s]; [discriminate|].
  destruct (p x) eqn:Hx; [|discriminate].
  intros H. apply rep_last_inv in H as (t & -> & Ht & Hs & ->).
  exists (x :: t). split; [discriminate|]. split; [reflexivity|].
  split; [simpl; now rewrite Hx|]. now split.
Qed.

(** A match of the markdown pattern is a link: bracket, text, bracket,
    parenthesis, target, parenthesis. *)
Lemma markdown_match_inv prev s rest caps :
  match_at markdown_re prev s = Some (rest, caps) ->
  exists text target,
    s = lit "[" ++ text ++ lit "](" ++ target ++ lit ")" ++ rest
    /\ text <> [] /\ forallb not_rbracket text = true
    /\ target <> [] /\ forallb not_rparen target = true
    /\ caps = [text; target].
Proof.
  unfold match_at, markdown_re. intros H.
  rewrite run_cat in H. apply run_chr_inv in H as (s1 & -> & H).
  rewrite run_cat in H.
  apply run_group_rep1_inv in H as (text & s2 & Ht & -> & Hbt & H).
  rewrite run_cat in H. apply run_chr_inv in H as (s3 & -> & H).
  rewrite run_cat in H. apply run_chr_inv in H as (s4 & -> & H).
  rewrite run_cat in H.
  apply run_group_rep1_inv in H as (target & s5 & Hu & -> & Hbu & H).
  apply run_chr_inv in H as (s6 & -> & H). injection H as <- <-.
  exists text, target. now repeat split.
Qed.

(** A match of the bare pattern is a scheme and a run of characters
    that are neither white space nor a closing parenthesis, read to its
    end, and not right after an opening parenthesis. *)
Lemma bare_match_inv prev s rest caps :
  match_at bare_re prev s = Some (rest, caps) ->
  prev <> Some (chr "(")
  /\ exists scheme body,
      (scheme = lit "http://" \/ scheme = lit "https://")
      /\ s = scheme ++ body ++ rest
      /\ body <> [] /\ forallb not_space_rparen body = true
      /\ stops not_space_rparen rest
      /\ caps = [].
Proof.
  unfold match_at, bare_re. intros H.
  rewrite run_cat in H. apply run_not_after_inv in H as [Hprev H].
  split; [exact Hprev|].
  rewrite run_cat in H. apply run_literal_inv in H as (s1 & -> & H).
  rewrite run_cat in H. apply run_opt_chr_inv in H as [(s2 & -> & H)|H].
  - rewrite run_cat in H. apply run_literal_inv in H as (s3 & -> & H).
    apply run_rep1_last_inv in H as (body & Hne & -> & Hb & Hs & ->).
    exists (lit "https://"), body. repeat split; auto.
  - rewrite run_cat in H. apply run_literal_inv in H as (s3 & -> & H).
    apply run_rep1_last_inv in H as (body & Hne & -> & Hb & Hs & ->).
    exists (lit "http://"), body. repeat split; auto.
Qed.

(** Every match the scan reports is a successful attempt at its
    position, with the text it read and the groups it captured. *)
Lemma scan_inv r s : forall pos prev skip m,
  In m (scan r pos prev s skip) ->
  exists a b rest,
    s = a ++ b /\ m_start m = pos + length a
    /\ match_at r (prev_after prev a) b = Some (rest, m_groups m)
    /\ m_text m = firstn (consumed b rest) b.
Proof.
  induction s as [|x s IH]; intros pos prev skip m H; simpl in H.
  - destruct skip; [|contradiction].
    destruct (match_at r prev []) as [[rest caps]|] eqn:E; [|contradiction].
    destruct H as [<-|[]]. exists [], [], rest. simpl.
    repeat split; [lia | exact E].
  - assert (Tail : forall n, In m (scan r (S pos) (Some x) s n) ->
              exists a b rest,
                x :: s = a ++ b /\ m_start m = pos + length a
                /\ match_at r (prev_after prev a) b = Some (rest, m_groups m)
                /\ m_text m = firstn (consumed b rest) b).
    { intros n Hn. destruct (IH _ _ _ _ Hn) as (a & b & rest & -> & Hp & Hm & Ht).
      exists (x :: a), b, rest. simpl. repeat split; [lia | assumption ..]. }
    destruct skip as [|n]; [|now apply Tail in H].
    destruct (match_at r prev (x :: s)) as [[rest caps]|] eqn:E;
      [|now apply Tail in H].
    destruct H as [<-|H]; [|now apply Tail in H].
    exists [], (x :: s), rest. simpl. repeat split; [lia | exact E].
Qed.

End MatchShape.
Import MatchShape.

(* ------------------------------------------------------------------ *)
(** ** The extractor: what is emitted *)

Lemma startswith_prefix (p s : str) : startswith (p ++ s) p = true.
Proof.
  induction p as [|y p IH]; simpl; [reflexivity|]. now rewrite eqc_refl.
Qed.

Lemma startswith_holds (s p : str) :
  startswith s p = true -> exists t, s = p ++ t.
Proof.
  revert s; induction p as [|y p IH]; intros s H.
  - now exists s.
  - destruct s as [|x s]; simpl in H; [discriminate|].
    apply andb_true_iff in H as [E H]. apply eqc_eq in E; subst y.
    destruct (IH _ H) as [t ->]. now exists t.
Qed.

Lemma is_http_scheme (scheme body : str) :
  scheme = lit "http://" \/ scheme = lit "https://" ->
  is_http (scheme ++ body) = true.
Proof.
  unfold is_http. intros [-> | ->]; rewrite startswith_prefix;
    [reflexivity | apply orb_true_r].
Qed.

Lemma no_paren_in_bare (scheme body : str) :
  scheme = lit "http://" \/ scheme = lit "https://" ->
  forallb not_space_rparen body = true ->
  forallb not_rparen (scheme ++ body) = true.
Proof.
  intros Hs Hb. rewrite forallb_app. apply andb_true_iff. split.
  - destruct Hs as [-> | ->]; reflexivity.
  - rewrite forallb_forall in *. intros x Hx. apply Hb in Hx.
    unfold not_space_rparen in Hx. now apply andb_true_iff in Hx as [_ Hx].
Qed.

Lemma not_after_paren (a : str) :
  prev_after None a <> Some (chr "(") -> forall pre', a <> pre' ++ [chr "("].
Proof. intros H pre' ->. now rewrite prev_after_app in H. Qed.

(** Whatever the first loop appends is the target of a link of the line:
    a bracket, a non-empty text without closing bracket, "](" , the URL
    and a closing parenthesis; the URL begins with http:// or https:// and
    holds no closing parenthesis. *)
Theorem markdown_links_are_link_targets (line u : str) :
  In u (markdown_links line) ->
  exists pre text post,
    line = pre ++ lit "[" ++ text ++ lit "](" ++ u ++ lit ")" ++ post
    /\ text <> [] /\ forallb not_rbracket text = true
    /\ is_http u = true /\ forallb not_rparen u = true.
Proof.
  unfold markdown_links, findall2. intros H.
  apply in_map_iff in H as [[t u'] [Hu H]]. simpl in Hu. subst u'.
  apply filter_In in H as [H Hhttp]. simpl in Hhttp.
  apply in_map_iff in H as [m [Hp Hm]].
  apply scan_inv in Hm as (a & b & rest & -> & _ & Hm & _).
  apply markdown_match_inv in Hm
    as (text & target & -> & Ht & Hbt & _ & Hbu & Hg).
  unfold pair_of_groups in Hp. rewrite Hg in Hp. simpl in Hp.
  injection Hp as <- <-.
  exists a, text, rest. now repeat split.
Qed.

(** Whatever the second loop appends is a scheme, http:// or https://,
    followed by at least one character, free of white space and closing
    parentheses; it stands on the line, not right after an opening
    parenthesis, and what follows it is white space, a closing parenthesis
    or the end of the line. *)
Theorem bare_urls_are_urls (line u : str) :
  In u (bare_urls line) ->
  exists pre scheme body post,
    line = pre ++ u ++ post
    /\ u = scheme ++ body
    /\ (scheme = lit "http://" \/ scheme = lit "https://")
    /\ body <> [] /\ forallb not_space_rparen body = true
    /\ stops not_space_rparen post
    /\ (forall pre', pre <> pre' ++ [chr "("]).
Proof.
  unfold bare_urls, findall0. intros H.
  apply in_map_iff in H as [m [Hu Hm]].
  apply scan_inv in Hm as (a & b & rest & -> & _ & Hm & Ht).
  apply bare_match_inv in Hm
    as (Hprev & scheme & body & Hs & -> & Hne & Hb & Hstop & _).
  assert (E : u = scheme ++ body).
  { rewrite <- Hu, Ht. unfold consumed.
    rewrite (app_assoc scheme body rest). apply firstn_consumed. }
  exists a, scheme, body, rest. rewrite E, <- app_assoc.
  repeat split; auto. now apply not_after_paren.
Qed.

Lemma extract_from_found f : forall n e,
  In e (extract_from n f) ->
  exists i line,
    nth_error f i = Some line /\ fst e = (n + Z.of_nat i)%Z
    /\ In (snd e) (markdown_links line ++ bare_urls line).
Proof.
  induction f as [|l f IH]; intros n e H; simpl in H; [contradiction|].
  apply in_app_iff in H as [H|H].
  - unfold line_links in H. rewrite <- map_app in H.
    apply in_map_iff in H as [u [<- Hu]].
    exists 0, l. simpl. repeat split; [lia | exact Hu].
  - apply IH in H as (i & line & Hn & Hi & Hu).
    exists (S i), line. simpl. repeat split; [exact Hn | lia | exact Hu].
Qed.

Lemma line_url_shape (line u : str) :
  In u (markdown_links line ++ bare_urls line) ->
  holds line u /\ is_http u = true /\ forallb not_rparen u = true.
Proof.
  intros H. apply in_app_iff in H as [H|H].
  - apply markdown_links_are_link_targets in H
      as (pre & text & post & -> & _ & _ & Hh & Hp).
    split; [|now split].
    exists (pre ++ lit "[" ++ text ++ lit "]("), (lit ")" ++ post).
    now rewrite <- !app_assoc.
  - apply bare_urls_are_urls in H
      as (pre & scheme & body & post & -> & -> & Hs & _ & Hb & _ & _).
    split; [now exists pre, post|].
    split; [now apply is_http_scheme | now apply no_paren_in_bare].
Qed.

(** Every entry of the result points into the document: its line number
    is the number of a line of the file, from 1 to the number of lines, and
    its URL is a piece of that line that begins with http:// or https://
    and holds no closing parenthesis. *)
Theorem extract_links_entries (f : list str) (n : Z) (u : str) :
  In (n, u) (extract_links f) ->
  (1 <= n <= Z.of_nat (length f))%Z
  /\ (exists line, nth_error f (Z.to_nat (n - 1)) = Some line /\ holds line u)
  /\ is_http u = true
  /\ forallb not_rparen u = true.
Proof.
  intros H. apply extract_from_found in H as (i & line & Hn & Hi & Hu).
  cbn [fst snd] in Hi, Hu. apply line_url_shape in Hu as (Hh & Hhttp & Hp).
  assert (Hlt : i < length f) by (apply nth_error_Some; congruence).
  split; [lia|]. split; [|now split].
  exists line. split; [|exact Hh].
  replace (Z.to_nat (n - 1)) with i by lia. exact Hn.
Qed.

(** A line that holds neither http:// nor https:// gives no link, and a
    document made of such lines gives none. *)
Theorem no_scheme_no_links (f : list str) :
  Forall (fun line => ~ holds line (lit "http://")
                      /\ ~ holds line (lit "https://")) f ->
  extract_links f = [].
Proof.
  intros Hf. destruct (extract_links f) as [|[n u] l] eqn:E; [reflexivity|].
  exfalso.
  assert (H : In (n, u) (extract_links f)) by (rewrite E; now left).
  apply extract_from_found in H as (i & line & Hn & _ & Hu).
  cbn [snd] in Hu.
  apply line_url_shape in Hu as ((pre & post & ->) & Hhttp & _).
  rewrite Forall_forall in Hf.
  destruct (Hf _ (nth_error_In _ _ Hn)) as [H1 H2].
  unfold is_http in Hhttp. apply orb_true_iff in Hhttp as [Hs|Hs];
    apply startswith_holds in Hs as [t ->]; [apply H1 | apply H2];
    exists pre, (t ++ post); now rewrite <- app_assoc.
Qed.

Lemma extract_from_shift f : forall n k,
  extract_from (n + k) f = map (shift k) (extract_from n f).
Proof.
  induction f as [|line f IH]; intros n k; simpl; [reflexivity|].
  rewrite map_app. f_equal.
  - unfold line_links. rewrite !map_app, !map_map. reflexivity.
  - replace (n + k + 1)%Z with ((n + 1) + k)%Z by lia. apply IH.
Qed.

(** The links of two documents one after the other are the links of the
    first followed by the links of the second, moved down by the number
    of lines of the first. *)
Theorem extract_links_app (f1 f2 : list str) :
  extract_links (f1 ++ f2)
  = extract_links f1
    ++ map (shift (Z.of_nat (length f1))) (extract_links f2).
Proof.
  unfold extract_links. rewrite <- extract_from_shift. generalize 1%Z.
  induction f1 as [|line f1 IH]; intros n; simpl.
  - now rewrite Z.add_0_r.
  - rewrite <- app_assoc. f_equal. rewrite IH. do 2 f_equal. lia.
Qed.

(* ------------------------------------------------------------------ *)
(** ** The prober: requests and results *)

Section ProberShape.

Variable exn : Type.
Variable isinstance : exn -> exc_class -> bool.
Variable str_of_exn : exn -> str.
Variable send : session -> list request -> request -> result exn response.

Lemma probe_on_requests s url timeout h :
  snd (probe_on isinstance str_of_exn send s url timeout h)
  = [head_request url timeout]
  \/ snd (probe_on isinstance str_of_exn send s url timeout h)
     = [head_request url timeout; get_request url timeout].
Proof.
  unfold probe_on. destruct (send s h _) as [r1|e]; [|now left].
  destruct (status_code r1 >=? 400)%Z; [now right | now left].
Qed.

(** One call of [check_link] adds to the world one HEAD request, or one
    HEAD and then one GET, for the URL and timeout it was given and with
    redirects allowed; it prints nothing and does not sleep. *)
Theorem check_link_adds_one_or_two_requests s url timeout w :
  exists new,
    snd (check_link isinstance str_of_exn send s url timeout w)
    = w ++ map Requested new
    /\ (new = [MkRequest HEAD url timeout true]
        \/ new = [MkRequest HEAD url timeout true;
                  MkRequest GET url timeout true]).
Proof.
  rewrite check_link_probe_on. cbn [snd].
  eexists. split; [reflexivity|]. apply probe_on_requests.
Qed.

(** When the HEAD request is answered with 400 or more, the verdict is
    taken from the answer to the GET request alone, which is made with the
    HEAD request already in the history: a server that refuses HEAD and
    serves GET is valid. *)
Theorem get_answer_decides s url timeout w r1 r2 :
  send s (history w) (head_request url timeout) = Ret r1 ->
  (400 <= status_code r1)%Z ->
  send s (history w ++ [head_request url timeout]) (get_request url timeout)
  = Ret r2 ->
  check_link isinstance str_of_exn send s url timeout w
  = (Ret (verdict r2),
     w ++ [Requested (head_request url timeout);
           Requested (get_request url timeout)]).
Proof.
  intros H1 L H2. rewrite check_link_probe_on. unfold probe_on.
  rewrite H1. assert (G : (status_code r1 >=? 400)%Z = true) by lia.
  rewrite G, H2. reflexivity.
Qed.

Lemma verdict_shape r :
  (exists code, verdict r = (true, lit "OK", code) /\ (code < 400)%Z)
  \/ (exists code,
         verdict r = (false, lit "HTTP " ++ str_of_int code, code)
         /\ (400 <= code)%Z).
Proof.
  unfold verdict. destruct (status_code r <? 400)%Z eqn:E.
  - left. exists (status_code r). split; [reflexivity | lia].
  - right. exists (status_code r). split; [reflexivity | lia].
Qed.

Lemma caught_shape e t :
  caught isinstance str_of_exn e = Ret t ->
  exists reason, t = (false, reason, 0%Z).
Proof.
  unfold caught, handlers, ret, raise.
  repeat match goal with |- context [if ?b then _ else _] => destruct b end;
    cbn [fst]; intros H; try discriminate H; injection H as <-;
    eexists; reflexivity.
Qed.

(** Whatever [check_link] returns is of one of three shapes: valid with
    the message "OK" and a status code below 400; broken with the message
    "HTTP <code>" and a status code of 400 or more; or broken with status
    code 0, for a failure. *)
Theorem check_link_result_shape s url timeout w t w' :
  check_link isinstance str_of_exn send s url timeout w = (Ret t, w') ->
  (exists code, t = (true, lit "OK", code) /\ (code < 400)%Z)
  \/ (exists code,
         t = (false, lit "HTTP " ++ str_of_int code, code)
         /\ (400 <= code)%Z)
  \/ (exists reason, t = (false, reason, 0%Z)).
Proof.
  rewrite check_link_probe_on. unfold probe_on. intros H.
  injection H as H _.
  destruct (send s (history w) _) as [r1|e].
  - destruct (status_code r1 >=? 400)%Z; cbn [fst] in H.
    + destruct (send s (history w ++ _) _) as [r2|e].
      * injection H as <-.
        destruct (verdict_shape r2) as [V|V]; [now left | right; now left].
      * right. right. now apply caught_shape with e.
    + injection H as <-.
      destruct (verdict_shape r1) as [V|V]; [now left | right; now left].
  - right. right. now apply caught_shape with e.
Qed.

(** An exception of none of the five classes is not caught: it leaves
    [check_link] as it came, after the requests made. *)
Theorem foreign_exception_propagates s url timeout w e w' :
  final_response send s url timeout w = (Raise e, w') ->
  (forall c, isinstance e c = false) ->
  check_link isinstance str_of_exn send s url timeout w = (Raise e, w').
Proof.
  intros H Hc. rewrite (check_link_raised _ _ _ _ _ _ _ H).
  unfold handlers, raise. now rewrite !Hc.
Qed.

End ProberShape.

(* ------------------------------------------------------------------ *)
(** ** The driver: the loop and the report *)

Section DriverRuns.

Variable exn : Type.
Variable isinstance : exn -> exc_class -> bool.
Variable str_of_exn : exn -> str.
Variable send : session -> list request -> request -> result exn response.

(** One turn of the loop, by what the probe gives. *)
Lemma check_each_step s total idx n url rest valid broken w :
  check_each isinstance str_of_exn send s total idx ((n, url) :: rest)
             valid broken w
  = let p := probe_on isinstance str_of_exn send s url default_timeout
                      (history w) in
    let w1 := (w ++ [Printed (progress_line idx total n url)])
              ++ map Requested (snd p) in
    match fst p with
    | Raise e => (Raise e, w1)
    | Ret (true, message, code) =>
        check_each isinstance str_of_exn send s total (idx + 1)%Z rest
          (valid ++ [(n, url, code)]) broken
          ((if (idx <? total)%Z
            then (w1 ++ [Printed (lit "  " ++ [check_mark] ++ lit " "
                                  ++ message ++ lit " ("
                                  ++ str_of_int code ++ lit ")")])
                 ++ [Slept (1 # 2)%Q]
            else w1 ++ [Printed (lit "  " ++ [check_mark] ++ lit " "
                                 ++ message ++ lit " ("
                                 ++ str_of_int code ++ lit ")")])
           ++ [Printed []])
    | Ret (false, message, code) =>
        check_each isinstance str_of_exn send s total (idx + 1)%Z rest
          valid (broken ++ [(n, url, message)])
          ((if (idx <? total)%Z
            then (w1 ++ [Printed (lit "  " ++ [cross_mark] ++ lit " "
                                  ++ message)])
                 ++ [Slept (1 # 2)%Q]
            else w1 ++ [Printed (lit "  " ++ [cross_mark] ++ lit " "
                                 ++ message)])
           ++ [Printed []])
    end.
Proof.
  cbv zeta. cbn [check_each].
  unfold bind at 1. unfold print at 1. unfold bind at 1.
  rewrite check_link_probe_on, history_printed.
  destruct (probe_on isinstance str_of_exn send s url default_timeout
                     (history w)) as [[[[[|] message] code]|e] new];
    cbn [fst snd]; [| |reflexivity].
  - unfold bind at 1. unfold bind at 1. unfold print at 1.
    unfold ret at 1. unfold bind at 1.
    destruct (idx <? total)%Z.
    + unfold sleep at 1. unfold bind at 1. unfold print at 1. reflexivity.
    + unfold ret at 1. unfold bind at 1. unfold print at 1. reflexivity.
  - unfold bind at 1. unfold bind at 1. unfold print at 1.
    unfold ret at 1. unfold bind at 1.
    destruct (idx <? total)%Z.
    + unfold sleep at 1. unfold bind at 1. unfold print at 1. reflexivity.
    + unfold ret at 1. unfold bind at 1. unfold print at 1. reflexivity.
Qed.

Lemma sleeps_app (a b : world) : sleeps (a ++ b) = sleeps a ++ sleeps b.
Proof.
  induction a as [|[t|q|r] a IH]; simpl; [reflexivity | assumption | | assumption].
  now rewrite IH.
Qed.

Lemma printed_app (a b : world) : printed (a ++ b) = printed a ++ printed b.
Proof.
  induction a as [|[t|q|r] a IH]; simpl; [reflexivity | | assumption ..].
  now rewrite IH.
Qed.

Lemma sleeps_requested (l : list request) : sleeps (map Requested l) = [].
Proof. induction l; simpl; auto. Qed.

Lemma printed_requested (l : list request) : printed (map Requested l) = [].
Proof. induction l; simpl; auto. Qed.

Lemma sleeps_printed (l : list str) : sleeps (map Printed l) = [].
Proof. induction l; simpl; auto. Qed.

Lemma history_of_printed (l : list str) : history (map Printed l) = [].
Proof. induction l; simpl; auto. Qed.

Lemma printed_printed (l : list str) : printed (map Printed l) = l.
Proof. induction l as [|x l IH]; simpl; [reflexivity | now rewrite IH]. Qed.

Local Ltac world_simpl :=
  repeat (rewrite ?history_app, ?sleeps_app, ?printed_app,
            ?history_requested, ?sleeps_requested, ?printed_requested,
            ?app_nil_r, <- ?app_assoc; cbn [history sleeps printed app]).

(** A loop that ends normally has put every link in one of the two
    lists, by its verdict and in order, and has made the requests of the
    probes and no other. *)
Lemma check_each_run s total links : forall idx valid broken w v' b' w',
  check_each isinstance str_of_exn send s total idx links valid broken w
  = (Ret (v', b'), w') ->
  let vs := verdicts isinstance str_of_exn send s links w in
  v' = valid ++ valid_entries links vs
  /\ b' = broken ++ broken_entries links vs
  /\ length (valid_entries links vs) + length (broken_entries links vs)
     = length links
  /\ history w'
     = history w ++ run_requests isinstance str_of_exn send s links (history w)
  /\ exists out, printed w' = printed w ++ out.
Proof.
  induction links as [|[n url] links IH];
    intros idx valid broken w v' b' w' H; cbv zeta.
  - simpl in H. unfold ret in H. injection H as <- <- <-. simpl.
    rewrite !app_nil_r. repeat split. exists []. now rewrite app_nil_r.
  - rewrite check_each_step in H. cbv zeta in H.
    cbn [verdicts run_requests]. rewrite check_link_probe_on.
    destruct (probe_on isinstance str_of_exn send s url default_timeout
                       (history w)) as [[[[[|] message] code]|e] new];
      cbn [fst snd] in *; [| |discriminate H].
    + apply IH in H. cbv zeta in H.
      destruct H as (Hv & Hb & Hl & Hh & out & Ho).
      rewrite (verdicts_history isinstance str_of_exn send s links _
                 (w ++ map Requested new)) in Hv, Hb, Hl
        by (destruct (idx <? total)%Z; world_simpl; reflexivity).
      cbn [valid_entries broken_entries length].
      split; [now rewrite Hv, <- app_assoc|].
      split; [exact Hb|]. split; [lia|]. split.
      * rewrite Hh. destruct (idx <? total)%Z; world_simpl; reflexivity.
      * rewrite Ho.
        destruct (idx <? total)%Z; world_simpl; eexists; reflexivity.
    + apply IH in H. cbv zeta in H.
      destruct H as (Hv & Hb & Hl & Hh & out & Ho).
      rewrite (verdicts_history isinstance str_of_exn send s links _
                 (w ++ map Requested new)) in Hv, Hb, Hl
        by (destruct (idx <? total)%Z; world_simpl; reflexivity).
      cbn [valid_entries broken_entries length].
      split; [exact Hv|].
      split; [now rewrite Hb, <- app_assoc|]. split; [lia|]. split.
      * rewrite Hh. destruct (idx <? total)%Z; world_simpl; reflexivity.
      * rewrite Ho.
        destruct (idx <? total)%Z; world_simpl; eexists; reflexivity.
Qed.

(** The loop pauses after every link but the last. *)
Lemma check_each_sleeps s links : forall total idx valid broken w r w',
  (idx + Z.of_nat (length links) - 1 = total)%Z ->
  check_each isinstance str_of_exn send s total idx links valid broken w
  = (Ret r, w') ->
  sleeps w' = sleeps w ++ repeat (1 # 2)%Q (length links - 1).
Proof.
  induction links as [|[n url] links IH];
    intros total idx valid broken w r w' Ht H.
  - simpl in H. unfold ret in H. injection H as _ <-. simpl.
    now rewrite app_nil_r.
  - rewrite check_each_step in H. cbv zeta in H.
    destruct (probe_on isinstance str_of_exn send s url default_timeout
                       (history w)) as [[[[[|] message] code]|e] new];
      cbn [fst snd] in *; [| |discriminate H].
    + apply IH in H; [|simpl length in Ht; lia]. rewrite H.
      destruct links as [|l links].
      * assert (E : (idx <? total)%Z = false) by (simpl in Ht; lia).
        rewrite E. world_simpl. reflexivity.
      * assert (E : (idx <? total)%Z = true) by (simpl length in Ht; lia).
        rewrite E. world_simpl. simpl. now rewrite Nat.sub_0_r.
    + apply IH in H; [|simpl length in Ht; lia]. rewrite H.
      destruct links as [|l links].
      * assert (E : (idx <? total)%Z = false) by (simpl in Ht; lia).
        rewrite E. world_simpl. reflexivity.
      * assert (E : (idx <? total)%Z = true) by (simpl length in Ht; lia).
        rewrite E. world_simpl. simpl. now rewrite Nat.sub_0_r.
Qed.

Lemma print_broken_eq (l : list (Z * str * str)) : forall w,
  print_broken exn l w = (Ret tt, w ++ map Printed (broken_report l)).
Proof.
  induction l as [|[[n url] message] l IH]; intros w; simpl.
  - unfold ret. now rewrite app_nil_r.
  - unfold bind, print. rewrite IH, <- !app_assoc. reflexivity.
Qed.

(** [main] as one equation: the first line, then either the error, or
    the loop followed by the summary and the closing lines. *)
Lemma main_eq f w :
  main isinstance str_of_exn send f w
  = let w0 := w ++ [Printed ([magnifier]
                             ++ lit " Extracting links from README.md...")] in
    match extract_links f with
    | [] =>
        (Ret 1%Z,
         w0 ++ [Printed ([cross_mark] ++ lit " No links found in README.md")])
    | l :: ls =>
        match check_each isinstance str_of_exn send create_session
                (Z.of_nat (length (l :: ls))) 1%Z (l :: ls) [] []
                (w0 ++ [Printed ([clipboard] ++ lit " Found "
                                 ++ str_of_int (Z.of_nat (length (l :: ls)))
                                 ++ lit " links to check" ++ [newline])])
        with
        | (Ret (v', b'), k) =>
            (Ret (exit_code b'),
             k ++ map Printed (summary_lines (length v') (length b')
                                             (length (l :: ls))
                               ++ closing_lines b'))
        | (Raise e, k) => (Raise e, k)
        end
    end.
Proof.
  cbv zeta. unfold main. unfold bind at 1. unfold print at 1.
  destruct (extract_links f) as [|l ls].
  - reflexivity.
  - unfold bind at 1. unfold print at 1. unfold bind at 1.
    destruct (check_each _ _ _ _ _ _ _ _ _ _) as [[[v' b']|e] k];
      [|reflexivity].
    repeat (unfold bind at 1; unfold print at 1).
    destruct b' as [|b0 b'].
    + unfold ret. cbn [exit_code closing_lines summary_lines map app].
      rewrite <- !app_assoc. reflexivity.
    + unfold bind at 1. rewrite print_broken_eq. unfold ret.
      cbn [exit_code closing_lines summary_lines].
      rewrite !map_app. cbn [map app]. rewrite <- !app_assoc. reflexivity.
Qed.

Lemma run_requests_heads s links : forall h,
  map req_url (filter is_head (run_requests isinstance str_of_exn send s links h))
  = map snd links.
Proof.
  induction links as [|[n url] links IH]; intros h; simpl; [reflexivity|].
  rewrite filter_app, map_app, IH.
  destruct (probe_on_requests isinstance str_of_exn send s url
              default_timeout h) as [-> | ->]; reflexivity.
Qed.

Lemma run_requests_parameters s links : forall h,
  Forall (fun r => req_timeout r = default_timeout
                   /\ req_allow_redirects r = true
                   /\ In (req_url r) (map snd links))
         (run_requests isinstance str_of_exn send s links h).
Proof.
  induction links as [|[n url] links IH]; intros h; simpl; [constructor|].
  apply Forall_app. split.
  - destruct (probe_on_requests isinstance str_of_exn send s url
                default_timeout h) as [-> | ->];
      repeat constructor; simpl; auto.
  - eapply Forall_impl; [|apply IH]. intros r (Ht & Ha & Hu).
    repeat split; [assumption ..|]. now right.
Qed.

Lemma run_requests_length s links : forall h,
  length links
  <= length (run_requests isinstance str_of_exn send s links h)
  <= 2 * length links.
Proof.
  induction links as [|[n url] links IH]; intros h;
    cbn [run_requests length]; [lia|].
  rewrite length_app.
  specialize (IH (h ++ snd (probe_on isinstance str_of_exn send s url
                                     default_timeout h))).
  destruct (probe_on_requests isinstance str_of_exn send s url
              default_timeout h) as [E | E]; rewrite E in *;
    cbn [length] in *; lia.
Qed.

Local Ltac split_result H Hc Hw :=
  pose proof (f_equal fst H) as Hc; pose proof (f_equal snd H) as Hw;
  cbn [fst snd] in Hc, Hw; clear H.

Lemma actions_app (a b : world) : actions (a ++ b) = actions a ++ actions b.
Proof.
  induction a as [|[t|q|r] a IH]; simpl; [reflexivity | assumption | |];
    now rewrite IH.
Qed.

Lemma actions_requested (l : list request) :
  actions (map Requested l) = map Requested l.
Proof. induction l as [|r l IH]; simpl; [reflexivity | now rewrite IH]. Qed.

Lemma actions_printed (l : list str) : actions (map Printed l) = [].
Proof. induction l; simpl; auto. Qed.

(** Apart from printing, the loop does the requests of each probe in
    turn, with a pause after every link but the last. *)
Lemma check_each_actions s links : forall total idx valid broken w r w',
  (idx + Z.of_nat (length links) - 1 = total)%Z ->
  check_each isinstance str_of_exn send s total idx links valid broken w
  = (Ret r, w') ->
  actions w'
  = actions w ++ paced isinstance str_of_exn send s links (history w).
Proof.
  induction links as [|[n url] links IH];
    intros total idx valid broken w r w' Ht H.
  - simpl in H. unfold ret in H. split_result H Hc Hw. subst w'. simpl.
    now rewrite app_nil_r.
  - rewrite check_each_step in H. cbv zeta in H. cbn [paced].
    destruct (probe_on isinstance str_of_exn send s url default_timeout
                       (history w)) as [[[[[|] message] code]|e] new];
      cbn [fst snd] in *; [| |discriminate H].
    + apply IH in H; [|cbn [length] in Ht; lia]. rewrite H.
      destruct links as [|l links].
      * assert (E : (idx <? total)%Z = false) by (simpl in Ht; lia).
        rewrite E. cbn [paced].
        rewrite !actions_app, actions_requested. cbn [actions].
        now rewrite !app_nil_r.
      * assert (E : (idx <? total)%Z = true) by (cbn [length] in Ht; lia).
        rewrite E.
        rewrite !actions_app, actions_requested, !history_app,
          history_requested. cbn [actions history].
        now rewrite !app_nil_r, <- !app_assoc.
    + apply IH in H; [|cbn [length] in Ht; lia]. rewrite H.
      destruct links as [|l links].
      * assert (E : (idx <? total)%Z = false) by (simpl in Ht; lia).
        rewrite E. cbn [paced].
        rewrite !actions_app, actions_requested. cbn [actions].
        now rewrite !app_nil_r.
      * assert (E : (idx <? total)%Z = true) by (cbn [length] in Ht; lia).
        rewrite E.
        rewrite !actions_app, actions_requested, !history_app,
          history_requested. cbn [actions history].
        now rewrite !app_nil_r, <- !app_assoc.
Qed.

(** A run that ends by [sys.exit] has done, apart from printing, exactly
    this: the requests of the first probe, a pause of half a second, the
    requests of the second probe, a pause, and so on to the requests of
    the last probe.  A pause stands between every two consecutive probes
    and none after the last: one pause fewer than there are links, and
    none when there is no link. *)
Theorem main_pauses_between_probes f w code w' :
  main isinstance str_of_exn send f w = (Ret code, w') ->
  actions w'
  = actions w
    ++ paced isinstance str_of_exn send create_session (extract_links f)
             (history w)
  /\ sleeps w' = sleeps w ++ repeat (1 # 2)%Q (length (extract_links f) - 1).
Proof.
  rewrite main_eq. cbv zeta.
  destruct (extract_links f) as [|l ls].
  - intros H. split_result H Hc Hw. subst w'. split.
    + rewrite !actions_app. simpl. now rewrite !app_nil_r.
    + world_simpl. reflexivity.
  - destruct (check_each _ _ _ _ _ _ _ _ _ _) as [[[v' b']|e] k] eqn:E;
      [|discriminate].
    intros H. split_result H Hc Hw. subst w'. split.
    + apply check_each_actions in E; [|lia].
      rewrite actions_app, actions_printed, app_nil_r, E.
      rewrite !actions_app, !history_app. cbn [actions history].
      now rewrite !app_nil_r.
    + apply check_each_sleeps in E; [|lia].
      rewrite sleeps_app, sleeps_printed, app_nil_r, E.
      world_simpl. reflexivity.
Qed.

(** A run that ends by [sys.exit] has probed every extracted link once,
    in the order of extraction: the requests it made are, link after link,
    one HEAD to the link's URL, followed or not by one GET; every request
    has the timeout 10 and allows redirects, and goes to an extracted
    URL. *)
Theorem main_probes_each_link_in_order f w code w' :
  main isinstance str_of_exn send f w = (Ret code, w') ->
  exists new,
    history w' = history w ++ new
    /\ map req_url (filter is_head new) = map snd (extract_links f)
    /\ length (extract_links f) <= length new <= 2 * length (extract_links f)
    /\ Forall (fun r => req_timeout r = 10%Z
                        /\ req_allow_redirects r = true
                        /\ In (req_url r) (map snd (extract_links f))) new.
Proof.
  rewrite main_eq. cbv zeta.
  destruct (extract_links f) as [|l ls] eqn:El.
  - intros H. split_result H Hc Hw. subst w'. exists []. world_simpl.
    repeat split; [simpl; lia | simpl; lia | constructor].
  - destruct (check_each _ _ _ _ _ _ _ _ _ _) as [[[v' b']|e] k] eqn:E;
      [|discriminate].
    intros H. split_result H Hc Hw. subst w'.
    apply check_each_run in E. cbv zeta in E.
    destruct E as (_ & _ & _ & Hh & _).
    exists (run_requests isinstance str_of_exn send create_session (l :: ls)
                         (history w)).
    split.
    + rewrite history_app, history_of_printed, app_nil_r, Hh.
      world_simpl. reflexivity.
    + split; [apply run_requests_heads|].
      split; [apply run_requests_length | apply run_requests_parameters].
Qed.

(** A run that ends by [sys.exit] after probing ends its output with
    the summary and the closing lines: the number of valid links, the
    number of broken links and their total, which is the number of links
    extracted and the sum of the two; then either the success line, with
    exit code 0, or the header and two lines for every broken link with
    its line number, URL and reason, with exit code 1. *)
Theorem main_report f w code w' :
  extract_links f <> [] ->
  main isinstance str_of_exn send f w = (Ret code, w') ->
  let links := extract_links f in
  let vs := verdicts isinstance str_of_exn send create_session links w in
  let valid_links := valid_entries links vs in
  let broken_links := broken_entries links vs in
  length valid_links + length broken_links = length links
  /\ code = exit_code broken_links
  /\ exists before,
       printed w'
       = printed w ++ before
         ++ summary_lines (length valid_links) (length broken_links)
                          (length links)
         ++ closing_lines broken_links.
Proof.
  intros Hne. rewrite main_eq. cbv zeta.
  destruct (extract_links f) as [|l ls] eqn:El; [contradiction|].
  destruct (check_each _ _ _ _ _ _ _ _ _ _) as [[[v' b']|e] k] eqn:E;
    [|discriminate].
  intros H. split_result H Hc Hw. subst w'. injection Hc as <-.
  apply check_each_run in E. cbv zeta in E.
  destruct E as (Hv & Hb & Hl & _ & out & Ho).
  rewrite (verdicts_history isinstance str_of_exn send create_session
             (l :: ls) _ w) in Hv, Hb, Hl by (world_simpl; reflexivity).
  simpl app in Hv, Hb. subst v' b'.
  split; [exact Hl|]. split; [reflexivity|].
  rewrite printed_app, printed_printed, Ho, !printed_app.
  cbn [printed]. eexists (_ :: _ :: out).
  rewrite <- !app_assoc. reflexivity.
Qed.

(** With a client that fails with ordinary exceptions only, no link
    stops the run: [main] always ends by [sys.exit], with 0 or 1. *)
Theorem main_always_exits f w :
  ordinary_failures isinstance send ->
  exists code w',
    main isinstance str_of_exn send f w = (Ret code, w')
    /\ (code = 0%Z \/ code = 1%Z).
Proof.
  intros Hord. pose proof (main_cases isinstance str_of_exn send f w) as H.
  cbv zeta in H.
  destruct (main isinstance str_of_exn send f w) as [[code|e] w'];
    cbn [fst] in H.
  - exists code, w'. split; [reflexivity|].
    destruct H as [[_ ->]|(_ & _ & [[_ ->]|[_ ->]])]; auto.
  - destruct H as [_ H].
    rewrite verdicts_returned in H by exact Hord. discriminate H.
Qed.

Lemma before_summary_is_not_summary (line : str) (nv nb nt : nat) :
  before_summary line = true -> ~ In line (summary_lines nv nb nt).
Proof.
  intros H Hin. unfold summary_lines in Hin. simpl in Hin.
  repeat destruct Hin as [Hin|Hin]; try contradiction; subst line;
    discriminate H.
Qed.

(** Whatever the loop prints is a line of the loop. *)
Lemma check_each_prints s total links : forall idx valid broken w r w',
  check_each isinstance str_of_exn send s total idx links valid broken w
  = (r, w') ->
  exists out, printed w' = printed w ++ out
              /\ forallb before_summary out = true.
Proof.
  induction links as [|[n url] links IH];
    intros idx valid broken w r w' H.
  - simpl in H. unfold ret in H. split_result H Hc Hw. subst w'.
    exists []. now rewrite app_nil_r.
  - rewrite check_each_step in H. cbv zeta in H.
    destruct (probe_on isinstance str_of_exn send s url default_timeout
                       (history w)) as [[[[[|] message] code]|e] new];
      cbn [fst snd] in *.
    + apply IH in H as (out & Ho & Hb). rewrite Ho.
      destruct (idx <? total)%Z; world_simpl;
        (eexists (_ :: _ :: _ :: out); split; [reflexivity | exact Hb]).
    + apply IH in H as (out & Ho & Hb). rewrite Ho.
      destruct (idx <? total)%Z; world_simpl;
        (eexists (_ :: _ :: _ :: out); split; [reflexivity | exact Hb]).
    + split_result H Hc Hw. subst w'. world_simpl.
      eexists (_ :: nil). split; reflexivity.
Qed.

(** A loop that raises stops at the request that failed. *)
Lemma check_each_raises_at_request s total links :
  forall idx valid broken w e w',
  check_each isinstance str_of_exn send s total idx links valid broken w
  = (Raise e, w') ->
  exists k r, w' = k ++ [Requested r].
Proof.
  induction links as [|[n url] links IH];
    intros idx valid broken w e w' H.
  - simpl in H. unfold ret in H. discriminate H.
  - rewrite check_each_step in H. cbv zeta in H.
    destruct (probe_on_requests isinstance str_of_exn send s url
                default_timeout (history w)) as [En|En];
      destruct (probe_on isinstance str_of_exn send s url default_timeout
                         (history w)) as [[[[[|] message] code]|e0] new];
      cbn [fst snd] in *; try (now apply IH in H);
      split_result H Hc Hw; subst w' new.
    + do 2 eexists. reflexivity.
    + exists ((w ++ [Printed (progress_line idx total n url)])
              ++ [Requested (head_request url default_timeout)]),
        (get_request url default_timeout).
      cbn [map]. now rewrite <- !app_assoc.
Qed.

(** A probe that lets an exception through ends the run there: [main]
    ends with an exception exactly when some probe raises; the last thing
    the run did is then a request, and nothing it printed is a line of the
    summary. *)
Theorem main_raises_iff_probe_raises f w :
  ((exists e w', main isinstance str_of_exn send f w = (Raise e, w'))
   <-> forallb returned
         (verdicts isinstance str_of_exn send create_session
                   (extract_links f) w) = false)
  /\ (forall e w',
         main isinstance str_of_exn send f w = (Raise e, w') ->
         (exists k r, w' = k ++ [Requested r])
         /\ exists out,
             printed w' = printed w ++ out
             /\ forall line nv nb nt,
                 In line out -> ~ In line (summary_lines nv nb nt)).
Proof.
  split.
  - pose proof (main_cases isinstance str_of_exn send f w) as H.
    cbv zeta in H.
    destruct (main isinstance str_of_exn send f w) as [[code|e] w'];
      cbn [fst] in H.
    + split.
      * intros (e & k & F). discriminate F.
      * intros F. destruct H as [[Hn _]|(_ & Hr & _)].
        -- rewrite Hn in F. discriminate F.
        -- congruence.
    + split; [intros _; apply H | intros _; now exists e, w'].
  - intros e w'. rewrite main_eq. cbv zeta.
    destruct (extract_links f) as [|l ls]; [discriminate|].
    destruct (check_each _ _ _ _ _ _ _ _ _ _) as [[[v' b']|e0] k] eqn:E;
      [discriminate|].
    intros H. split_result H Hc Hw. subst w'. split.
    + now apply check_each_raises_at_request in E.
    + apply check_each_prints in E as (out & Ho & Hb).
      rewrite Ho, !printed_app. cbn [printed].
      eexists (_ :: _ :: out). split; [now rewrite <- !app_assoc|].
      intros line nv nb nt Hin. apply before_summary_is_not_summary.
      destruct Hin as [<-|[<-|Hin]]; [reflexivity | reflexivity|].
      rewrite forallb_forall in Hb. now apply Hb.
Qed.

End DriverRuns.

(* ------------------------------------------------------------------ *)
(** ** The observations on concrete runs *)

Lemma two_links_run :
  Scripted.main two_links []
  = (Ret 1%Z, snd (Scripted.main two_links [])).
Proof. vm_compute. reflexivity. Defined.

Lemma markdown_links_are_link_targets_witness :
  exists pre text post,
    lit "See [docs](https://good.example/page)."
    = pre ++ lit "[" ++ text ++ lit "](" ++ lit "https://good.example/page"
      ++ lit ")" ++ post
    /\ text <> [] /\ forallb not_rbracket text = true
    /\ is_http (lit "https://good.example/page") = true
    /\ forallb not_rparen (lit "https://good.example/page") = true.
Proof.
  apply (@markdown_links_are_link_targets
           (lit "See [docs](https://good.example/page).")
           (lit "https://good.example/page")).
  vm_compute. left. reflexivity.
Defined.

Lemma bare_urls_are_urls_witness :
  exists pre scheme body post,
    lit "Dead: https://dead.example/page now"
    = pre ++ lit "https://dead.example/page" ++ post
    /\ lit "https://dead.example/page" = scheme ++ body
    /\ (scheme = lit "http://" \/ scheme = lit "https://")
    /\ body <> [] /\ forallb not_space_rparen body = true
    /\ stops not_space_rparen post
    /\ (forall pre', pre <> pre' ++ [chr "("]).
Proof.
  apply (@bare_urls_are_urls (lit "Dead: https://dead.example/page now")
           (lit "https://dead.example/page")).
  vm_compute. left. reflexivity.
Defined.

Lemma extract_links_entries_witness :
  (1 <= 2 <= Z.of_nat (length two_links))%Z
  /\ (exists line,
         nth_error two_links (Z.to_nat (2 - 1)) = Some line
         /\ holds line (lit "https://dead.example/page"))
  /\ is_http (lit "https://dead.example/page") = true
  /\ forallb not_rparen (lit "https://dead.example/page") = true.
Proof.
  apply (@extract_links_entries two_links 2 (lit "https://dead.example/page")).
  vm_compute. right. left. reflexivity.
Defined.

Lemma no_scheme_no_links_witness :
  extract_links [lit "ftp:"; lit "(h)"] = [].
Proof.
  apply no_scheme_no_links.
  repeat constructor;
    intros (pre & post & E);
    repeat (destruct pre as [|? pre]; try discriminate E).
Defined.

Lemma get_answer_decides_witness :
  Scripted.check_link create_session (lit "https://head.example/") 10 []
  = (Ret (verdict (MkResponse 200)),
     [Requested (head_request (lit "https://head.example/") 10);
      Requested (get_request (lit "https://head.example/") 10)]).
Proof.
  apply (@get_answer_decides _ Scripted.isinstance Scripted.str_of_exn
           Scripted.send create_session (lit "https://head.example/") 10 []
           (MkResponse 405) (MkResponse 200)).
  - reflexivity.
  - simpl. lia.
  - reflexivity.
Defined.

Lemma check_link_result_shape_witness :
  (exists code, (false, lit "HTTP 404", 404%Z) = (true, lit "OK", code)
                /\ (code < 400)%Z)
  \/ (exists code,
         (false, lit "HTTP 404", 404%Z)
         = (false, lit "HTTP " ++ str_of_int code, code)
         /\ (400 <= code)%Z)
  \/ (exists reason, (false, lit "HTTP 404", 404%Z) = (false, reason, 0%Z)).
Proof.
  apply (@check_link_result_shape _ Scripted.isinstance Scripted.str_of_exn
           Scripted.send create_session (lit "https://dead.example/page") 10
           [] (false, lit "HTTP 404", 404%Z)
           [Requested (head_request (lit "https://dead.example/page") 10);
            Requested (get_request (lit "https://dead.example/page") 10)]).
  vm_compute. reflexivity.
Defined.

Lemma foreign_exception_propagates_witness :
  check_link Scripted.isinstance Scripted.str_of_exn
             (fun _ _ _ => Raise Scripted.KeyboardInterrupt)
             create_session (lit "https://good.example/page") 10 []
  = (Raise Scripted.KeyboardInterrupt,
     [Requested (head_request (lit "https://good.example/page") 10)]).
Proof.
  apply foreign_exception_propagates.
  - reflexivity.
  - intros c. reflexivity.
Defined.

Lemma main_pauses_between_probes_witness :
  actions (snd (Scripted.main two_links []))
  = actions []
    ++ paced Scripted.isinstance Scripted.str_of_exn Scripted.send
             create_session (extract_links two_links) (history [])
  /\ sleeps (snd (Scripted.main two_links []))
     = sleeps [] ++ repeat (1 # 2)%Q (length (extract_links two_links) - 1).
Proof.
  apply (@main_pauses_between_probes _ Scripted.isinstance
           Scripted.str_of_exn Scripted.send two_links [] 1%Z).
  exact two_links_run.
Defined.

(** On the two links: the HEAD of the first, the pause, then the HEAD
    and the GET of the second, and no pause after it. *)
Example two_links_actions :
  actions (snd (Scripted.main two_links []))
  = [Requested (head_request (lit "https://good.example/page") 10);
     Slept (1 # 2)%Q;
     Requested (head_request (lit "https://dead.example/page") 10);
     Requested (get_request (lit "https://dead.example/page") 10)].
Proof. vm_compute. reflexivity. Qed.

Lemma interrupted_run :
  main Scripted.isinstance Scripted.str_of_exn
       (fun _ _ _ => Raise Scripted.KeyboardInterrupt) two_links []
  = (Raise Scripted.KeyboardInterrupt,
     snd (main Scripted.isinstance Scripted.str_of_exn
               (fun _ _ _ => Raise Scripted.KeyboardInterrupt) two_links [])).
Proof. vm_compute. reflexivity. Defined.

Lemma main_raises_iff_probe_raises_witness :
  let w' := snd (main Scripted.isinstance Scripted.str_of_exn
                      (fun _ _ _ => Raise Scripted.KeyboardInterrupt)
                      two_links []) in
  (exists k r, w' = k ++ [Requested r])
  /\ exists out,
      printed w' = printed [] ++ out
      /\ forall line nv nb nt,
          In line out -> ~ In line (summary_lines nv nb nt).
Proof.
  cbv zeta.
  apply (proj2 (@main_raises_iff_probe_raises _ Scripted.isinstance
                  Scripted.str_of_exn
                  (fun _ _ _ => Raise Scripted.KeyboardInterrupt)
                  two_links [])
               Scripted.KeyboardInterrupt).
  exact interrupted_run.
Defined.

Lemma main_probes_each_link_in_order_witness :
  exists new,
    history (snd (Scripted.main two_links [])) = history [] ++ new
    /\ map req_url (filter is_head new) = map snd (extract_links two_links)
    /\ length (extract_links two_links) <= length new
       <= 2 * length (extract_links two_links)
    /\ Forall (fun r => req_timeout r = 10%Z
                        /\ req_allow_redirects r = true
                        /\ In (req_url r) (map snd (extract_links two_links)))
              new.
Proof.
  apply (@main_probes_each_link_in_order _ Scripted.isinstance
           Scripted.str_of_exn Scripted.send two_links [] 1%Z).
  exact two_links_run.
Defined.

Lemma main_report_witness :
  let links := extract_links two_links in
  let vs := verdicts Scripted.isinstance Scripted.str_of_exn Scripted.send
                     create_session links [] in
  length (valid_entries links vs) + length (broken_entries links vs)
  = length links
  /\ 1%Z = exit_code (broken_entries links vs)
  /\ exists before,
       printed (snd (Scripted.main two_links []))
       = printed [] ++ before
         ++ summary_lines (length (valid_entries links vs))
                          (length (broken_entries links vs)) (length links)
         ++ closing_lines (broken_entries links vs).
Proof.
  apply (@main_report _ Scripted.isinstance Scripted.str_of_exn
           Scripted.send two_links [] 1%Z).
  - vm_compute. discriminate.
  - exact two_links_run.
Defined.

Lemma main_always_exits_witness :
  exists code w',
    Scripted.main two_links [] = (Ret code, w')
    /\ (code = 0%Z \/ code = 1%Z).
Proof.
  apply (@main_always_exits _ Scripted.isinstance Scripted.str_of_exn
           Scripted.send two_links []).
  exact scripted_ordinary.
Defined.

(** The output of the run on the two links ends with the counts 1, 1
    and 2 and the report of the dead link. *)
Example two_links_counts :
  let links := extract_links two_links in
  let vs := verdicts Scripted.isinstance Scripted.str_of_exn Scripted.send
                     create_session links [] in
  valid_entries links vs = [(1%Z, lit "https://good.example/page", 200%Z)]
  /\ broken_entries links vs
     = [(2%Z, lit "https://dead.example/page", lit "HTTP 404")].
Proof. split; vm_compute; reflexivity. Qed.

(* ------------------------------------------------------------------ *)
(** ** The extractor: a link with an empty part *)

Module EmptyPart.

Lemma markdown_links_targets line :
  markdown_links line = targets_of (groups_of (finditer markdown_re line)).
Proof.
  unfold markdown_links, findall2, targets_of, groups_of.
  now rewrite map_map.
Qed.

Lemma targets_of_app g1 g2 :
  targets_of (g1 ++ g2) = targets_of g1 ++ targets_of g2.
Proof. unfold targets_of. now rewrite map_app, filter_app, map_app. Qed.

Lemma link_of_app text target post :
  lit "[" ++ text ++ lit "](" ++ target ++ lit ")" ++ post
  = link_of text target ++ post.
Proof. unfold link_of. now rewrite <- !app_assoc. Qed.

(** The pattern starts with a bracket. *)
Lemma markdown_needs_bracket prev s :
  match s with
  | [] => True
  | x :: _ => eqc x (chr "[") = false
  end ->
  match_at markdown_re prev s = None.
Proof.
  unfold match_at, markdown_re. rewrite run_cat.
  destruct s as [|x s]; [reflexivity|]. intros H. now apply run_chr_miss.
Qed.

(** The pattern does not look behind. *)
Lemma markdown_prev prev prev' s :
  match_at markdown_re prev s = match_at markdown_re prev' s.
Proof.
  destruct (match_at markdown_re prev s) as [[r c]|] eqn:E.
  - apply markdown_match_inv in E as (t & u & -> & Ht & Hbt & Hu & Hbu & ->).
    symmetry. now apply markdown_match.
  - destruct (match_at markdown_re prev' s) as [[r c]|] eqn:E'; [|reflexivity].
    apply markdown_match_inv in E' as (t & u & -> & Ht & Hbt & Hu & Hbu & ->).
    rewrite markdown_match in E by assumption. discriminate E.
Qed.

(** A match does not depend on what follows it. *)
Lemma markdown_extend prev b rest r caps :
  match_at markdown_re prev b = Some (r, caps) ->
  match_at markdown_re prev (b ++ rest) = Some (r ++ rest, caps).
Proof.
  intros E.
  apply markdown_match_inv in E as (t & u & -> & Ht & Hbt & Hu & Hbu & ->).
  rewrite <- !app_assoc. now apply markdown_match.
Qed.

Lemma markdown_restrict prev b rest r' caps :
  match_at markdown_re prev (b ++ rest) = Some (r', caps) ->
  consumed (b ++ rest) r' <= length b ->
  exists r, r' = r ++ rest /\ match_at markdown_re prev b = Some (r, caps).
Proof.
  intros E Hc.
  apply markdown_match_inv in E as (t & u & E & Ht & Hbt & Hu & Hbu & ->).
  rewrite link_of_app in E. unfold consumed in Hc.
  rewrite E, length_app in Hc.
  apply app_eq_app in E as [l [[-> ->]|[E ->]]].
  - exists l. split; [reflexivity|].
    rewrite <- link_of_app. now apply markdown_match.
  - rewrite E, length_app in Hc.
    assert (l = []) as -> by (destruct l; [reflexivity | simpl in Hc; lia]).
    exists []. split; [reflexivity|].
    rewrite app_nil_r in E. subst b.
    rewrite <- (app_nil_r (link_of t u)), <- link_of_app.
    now apply markdown_match.
Qed.

(** Where every attempt fails, the scan passes without a match. *)
Lemma scan_fail_span r mid post : forall pos prev,
  (forall c d, mid = c ++ d -> d <> [] ->
               match_at r (prev_after prev c) (d ++ post) = None) ->
  scan r pos prev (mid ++ post) 0
  = scan r (pos + length mid) (prev_after prev mid) post 0.
Proof.
  induction mid as [|x mid IH]; intros pos prev H.
  - simpl. now rewrite Nat.add_0_r.
  - assert (E : match_at r prev (x :: mid ++ post) = None)
      by (apply (H [] (x :: mid) eq_refl); discriminate).
    cbn [app scan]. rewrite E, IH.
    + cbn [length prev_after]. f_equal. lia.
    + intros c d -> Hd. apply (H (x :: c) d eq_refl Hd).
Qed.

(** The groups the scan finds depend neither on the column it starts
    counting from nor on the character before. *)
Lemma scan_groups_shift s : forall pos pos' prev prev' skip,
  groups_of (scan markdown_re pos prev s skip)
  = groups_of (scan markdown_re pos' prev' s skip).
Proof.
  unfold groups_of.
  induction s as [|x s IH]; intros pos pos' prev prev' skip.
  - cbn [scan]. rewrite !(markdown_needs_bracket _ []) by exact I.
    now destruct skip.
  - cbn [scan]. destruct skip as [|n]; [|apply IH].
    rewrite (markdown_prev prev prev').
    destruct (match_at markdown_re prev' (x :: s)) as [[rest caps]|];
      [|apply IH].
    cbn [map m_groups]. f_equal. apply IH.
Qed.

(** When no match reported before the end of [pre] runs past it, the
    scan finds in [pre] what it finds in [pre] alone. *)
Lemma scan_prefix pre rest : forall pos prev skip,
  skip <= length pre ->
  (forall m, In m (scan markdown_re pos prev (pre ++ rest) skip) ->
             m_start m < pos + length pre ->
             m_end m <= pos + length pre) ->
  groups_of (scan markdown_re pos prev (pre ++ rest) skip)
  = groups_of (scan markdown_re pos prev pre skip)
    ++ groups_of (scan markdown_re (pos + length pre) (prev_after prev pre)
                       rest 0).
Proof.
  unfold groups_of.
  induction pre as [|x pre IH]; intros pos prev skip Hskip Hm.
  - simpl in Hskip. assert (skip = 0) as -> by lia.
    cbn [app scan length prev_after].
    rewrite (markdown_needs_bracket _ []) by exact I.
    now rewrite Nat.add_0_r.
  - cbn [app length prev_after] in *.
    replace (pos + S (length pre)) with (S pos + length pre) in * by lia.
    cbn [scan] in *. destruct skip as [|n]; [|apply IH; [lia | exact Hm]].
    destruct (match_at markdown_re prev (x :: pre ++ rest))
      as [[rest' caps]|] eqn:E.
    + pose proof (Hm _ (or_introl eq_refl)) as H0.
      unfold m_end in H0; cbn [m_start m_text] in H0.
      change (x :: pre ++ rest) with ((x :: pre) ++ rest) in H0, E.
      rewrite length_firstn_consumed in H0.
      destruct (markdown_restrict _ _ _ E) as (r & -> & Er);
        [cbn [length]; lia|].
      rewrite Er.
      assert (Hc : consumed ((x :: pre) ++ rest) (r ++ rest)
                   = consumed (x :: pre) r).
      { unfold consumed. rewrite !length_app. lia. }
      cbn [app] in Hc |- *. rewrite Hc in *.
      cbn [map m_groups app]. f_equal.
      apply IH; [simpl in H0; lia|].
      intros m Hin. apply Hm. now right.
    + destruct (match_at markdown_re prev (x :: pre)) as [[r caps]|] eqn:Er.
      * apply markdown_extend with (rest := rest) in Er.
        cbn [app] in Er. congruence.
      * apply IH; [lia | exact Hm].
Qed.

(** A stretch of the line on which every attempt fails, with no earlier
    match running into it, leaves the links of the rule as those of what
    stands before it followed by those of what stands after it. *)
Lemma span_yields_nothing pre mid post :
  (forall prev c d, mid = c ++ d -> d <> [] ->
                    match_at markdown_re prev (d ++ post) = None) ->
  (forall m, In m (finditer markdown_re (pre ++ mid ++ post)) ->
             m_start m < length pre -> m_end m <= length pre) ->
  markdown_links (pre ++ mid ++ post)
  = markdown_links pre ++ markdown_links post.
Proof.
  intros Hfail Hfree. rewrite !markdown_links_targets. unfold finditer.
  rewrite scan_prefix by (try exact Hfree; lia).
  rewrite scan_fail_span by (intros c d Hc Hd; now apply Hfail with c).
  rewrite targets_of_app. f_equal. f_equal. apply scan_groups_shift.
Qed.

Lemma split_inside {A} (pre mid post a b : list A) :
  pre ++ mid ++ post = a ++ b ->
  length pre <= length a < length pre + length mid ->
  exists c d, a = pre ++ c /\ mid = c ++ d /\ d <> [] /\ b = d ++ post.
Proof.
  intros E Hl. apply app_eq_app in E as [l [[-> ->]|[-> E]]].
  - rewrite length_app in Hl.
    assert (l = []) as -> by (destruct l; [reflexivity | simpl in Hl; lia]).
    exists [], mid. rewrite !app_nil_r. repeat split.
    intros ->. simpl in Hl. lia.
  - rewrite length_app in Hl.
    apply app_eq_app in E as [l2 [[-> ->]|[-> ->]]].
    + exists l, l2. repeat split. intros ->.
      rewrite app_nil_r in Hl. lia.
    + rewrite length_app in Hl. lia.
Qed.

(** On such a stretch no match is reported: every match ends before it
    or starts after it. *)
Lemma span_not_overlapped pre mid post :
  (forall prev c d, mid = c ++ d -> d <> [] ->
                    match_at markdown_re prev (d ++ post) = None) ->
  (forall m, In m (finditer markdown_re (pre ++ mid ++ post)) ->
             m_start m < length pre -> m_end m <= length pre) ->
  forall m, In m (finditer markdown_re (pre ++ mid ++ post)) ->
            m_end m <= length pre \/ length pre + length mid <= m_start m.
Proof.
  intros Hfail Hfree m Hm.
  destruct (Nat.lt_ge_cases (m_start m) (length pre)) as [Hlt|Hge];
    [left; now apply Hfree|].
  destruct (Nat.lt_ge_cases (m_start m) (length pre + length mid))
    as [Hin|Hout]; [|now right].
  exfalso. unfold finditer in Hm.
  apply scan_inv in Hm as (a & b & rest & E & Hs & Hsome & _).
  simpl in Hs. rewrite Hs in *.
  apply split_inside in E as (c & d & -> & -> & Hd & ->); [|lia].
  rewrite (Hfail _ c d eq_refl Hd) in Hsome. discriminate Hsome.
Qed.

(** The three kinds of stretch: the opening of a link without text, a
    whole link without text whose target holds no opening bracket, and a
    whole link without target. *)
Lemma no_text_opening_fails target post prev c d :
  lit "[](" = c ++ d -> d <> [] ->
  match_at markdown_re prev (d ++ target ++ lit ")" ++ post) = None.
Proof.
  intros E Hd.
  destruct c as [|c0 [|c1 [|c2 [|c3 c]]]]; simpl in E.
  - subst d. apply (markdown_no_text prev (chr "(" :: target ++ lit ")" ++ post)).
  - injection E as _ <-. now apply markdown_needs_bracket.
  - injection E as _ _ <-. now apply markdown_needs_bracket.
  - injection E as _ _ _ <-. contradiction.
  - discriminate E.
Qed.

Lemma no_text_link_fails target post prev c d :
  forallb not_lbracket target = true ->
  link_of [] target = c ++ d -> d <> [] ->
  match_at markdown_re prev (d ++ post) = None.
Proof.
  intros Ht E Hd. destruct c as [|c0 c].
  - simpl in E. subst d.
    apply (markdown_no_text prev (chr "(" :: (target ++ lit ")") ++ post)).
  - unfold link_of in E. simpl in E. injection E as _ E.
    assert (F : forallb not_lbracket (c ++ d) = true).
    { rewrite <- E. simpl. rewrite forallb_app, Ht. reflexivity. }
    rewrite forallb_app in F. apply andb_true_iff in F as [_ F].
    destruct d as [|y d]; [contradiction|].
    apply markdown_needs_bracket. simpl in F |- *.
    apply andb_true_iff in F as [F _]. unfold not_lbracket in F.
    now apply negb_true_iff in F.
Qed.

Lemma no_target_link_fails text post prev c d :
  forallb not_rbracket text = true ->
  link_of text [] = c ++ d -> d <> [] ->
  match_at markdown_re prev (d ++ post) = None.
Proof.
  intros Ht E Hd. destruct d as [|y d]; [contradiction|].
  destruct (eqc y (chr "[")) eqn:Ey; [|now apply markdown_needs_bracket].
  apply eqc_eq in Ey. subst y.
  assert (Hx : exists tx,
             chr "[" :: d = lit "[" ++ tx ++ lit "]()"
             /\ forallb not_rbracket tx = true).
  { destruct c as [|c0 c].
    - exists text. split; [symmetry; exact E | exact Ht].
    - unfold link_of in E. simpl in E. injection E as _ E.
      symmetry in E.
      apply app_eq_app in E as [l [[-> E]|[-> E]]].
      + destruct l as [|l0 [|l1 [|l2 [|l3 l]]]]; simpl in E;
          discriminate E.
      + destruct l as [|l0 l]; simpl in E.
        * discriminate E.
        * injection E as <- ->. exists l. split; [reflexivity|].
          rewrite forallb_app in Ht. apply andb_true_iff in Ht as [_ Ht].
          simpl in Ht. exact Ht. }
  destruct Hx as (tx & -> & Htx).
  rewrite <- !app_assoc. now apply markdown_no_target.
Qed.

End EmptyPart.
Import EmptyPart.

(** C9, as the specification states it, fails: the image
    [![](https://i.png)] has an empty display text, yet on the line of a
    badge, where a bracket stands before it, the markdown rule matches from
    that bracket and emits the image's target. *)
Lemma empty_text_link_target_emitted :
  let line := lit "[![](https://i.png)](https://t.com)" in
  line = lit "[!" ++ lit "[](" ++ lit "https://i.png" ++ lit ")"
         ++ lit "](https://t.com)"
  /\ findall2 markdown_re line = [(lit "![", lit "https://i.png")]
  /\ markdown_links line = [lit "https://i.png"]
  /\ In (1%Z, lit "https://i.png") (extract_links [line]).
Proof.
  cbv zeta. repeat split; try reflexivity. vm_compute. now left.
Qed.

(** An earlier match that runs into a link without target takes the
    link for part of its own target. *)
Example earlier_match_runs_into_empty_target :
  markdown_links (lit "[a](http://x [text]()")
  = [lit "http://x [text]("].
Proof. vm_compute. reflexivity. Qed.

(** C9, amended: the markdown pattern does not match at a link whose
    display text is empty or whose target is empty.  Provided no match of
    the pattern that starts earlier on the line runs into the link, no
    match contains its opening bracket, and the rule emits nothing for it:
    for a link without target, and for a link without text whose target
    holds no opening bracket, the links the rule finds on the line are
    those it finds before the link followed by those it finds after it.
    On the two lines of the examples the rule emits nothing. *)
Theorem empty_part_link_yields_nothing (pre post : str) :
  (forall prev target,
      match_at markdown_re prev (lit "[](" ++ target ++ lit ")" ++ post)
      = None)
  /\ (forall prev text,
         forallb not_rbracket text = true ->
         match_at markdown_re prev (lit "[" ++ text ++ lit "]()" ++ post)
         = None)
  /\ (forall target,
         let line := pre ++ lit "[](" ++ target ++ lit ")" ++ post in
         (forall m, In m (finditer markdown_re line) ->
                    m_start m < length pre -> m_end m <= length pre) ->
         (forall m, In m (finditer markdown_re line) ->
                    m_end m <= length pre \/ length pre + 3 <= m_start m)
         /\ (forallb not_lbracket target = true ->
             markdown_links line = markdown_links pre ++ markdown_links post))
  /\ (forall text,
         forallb not_rbracket text = true ->
         let line := pre ++ lit "[" ++ text ++ lit "]()" ++ post in
         (forall m, In m (finditer markdown_re line) ->
                    m_start m < length pre -> m_end m <= length pre) ->
         markdown_links line = markdown_links pre ++ markdown_links post)
  /\ markdown_links (lit "[](https://example.com)") = []
  /\ markdown_links (lit "[text]()") = [].
Proof.
  split; [|split; [|split; [|split; [|split; vm_compute; reflexivity]]]].
  - intros prev target.
    apply (markdown_no_text prev (chr "(" :: target ++ lit ")" ++ post)).
  - intros prev text Ht. now apply markdown_no_target.
  - intros target line Hfree. subst line. split.
    + apply (@span_not_overlapped pre (lit "[](") (target ++ lit ")" ++ post));
        [|exact Hfree].
      intros prev c d E Hd. now apply no_text_opening_fails with c.
    + intros Ht.
      replace (lit "[](" ++ target ++ lit ")" ++ post)
        with (link_of [] target ++ post) in *
        by (unfold link_of; now rewrite <- !app_assoc).
      apply span_yields_nothing; [|exact Hfree].
      intros prev c d E Hd. now apply no_text_link_fails with target c.
  - intros text Ht line Hfree. subst line.
    replace (lit "[" ++ text ++ lit "]()" ++ post)
      with (link_of text [] ++ post) in *
      by (unfold link_of; now rewrite <- !app_assoc).
    apply span_yields_nothing; [|exact Hfree].
    intros prev c d E Hd. now apply no_target_link_fails with text c.
Qed.

Lemma empty_part_link_yields_nothing_witness :
  markdown_links (lit "[a](http://b) " ++ lit "[" ++ lit "text" ++ lit "]()"
                  ++ lit " [c](http://d)")
  = markdown_links (lit "[a](http://b) ") ++ markdown_links (lit " [c](http://d)").
Proof.
  apply (proj1 (proj2 (proj2 (proj2 (empty_part_link_yields_nothing
                                       (lit "[a](http://b) ")
                                       (lit " [c](http://d)")))))
               (lit "text")).
  - reflexivity.
  - intros m Hm Hlt. vm_compute in Hm.
    destruct Hm as [<-|[<-|[]]]; unfold m_end; simpl in Hlt |- *; lia.
Defined.
